(** * ShortConviction: the predictor script of Signals/pyCode/Predictors

    A shallow embedding of [ShortConviction.py].  Data frames are lists of
    rows, one record type per table; float64 columns are IEEE binary64
    numbers ([PrimFloat.float]), with NaN playing pandas' null; a merge that
    pandas validates returns a [result], [MergeError] standing for the raised
    exception.  *)

From Stdlib Require Import ZArith List Bool Lia Permutation Sorted.
From Stdlib Require Import Floats.
From Stdlib Require Import Reals Lra.
Import ListNotations.

(** ** Values and errors *)

(** pandas' [isna] / [notna] on a float64 column: null is NaN. *)
Definition isna (x : float) : bool := is_nan x.
Definition notna (x : float) : bool := negb (is_nan x).

(** Outcome of a step that may raise: the only exception the script's own
    logic can raise is pandas' [MergeError], from [validate="1:1"]. *)
Inductive result (A : Type) : Type :=
| Ok (a : A)
| MergeError.

Arguments Ok {A} a.
Arguments MergeError {A}.

Definition bind {A B : Type} (m : result A) (k : A -> result B) : result B :=
  match m with
  | Ok a => k a
  | MergeError => MergeError
  end.

Notation "x <- m ;; k" := (bind m (fun x => k))
  (at level 61, m at next level, right associativity).

(** ** Tables

    Keys: [permno] and [time_avail_m] (a month index) are integers; [gvkey]
    is nullable.  Value columns are float64. *)

Module SignalMaster.
Record row : Type := mk
  { permno : Z; gvkey : option Z; time_avail_m : Z; ret : float }.
End SignalMaster.

Module CRSP.
Record row : Type := mk
  { permno : Z; time_avail_m : Z; shrout : float }.
End CRSP.

Module ShortInterest.
Record row : Type := mk
  { gvkey : option Z; time_avail_m : Z; shortint : float }.
End ShortInterest.

(** [df] after the merge with [monthly_crsp] (lines 58-64). *)
Module Joined.
Record row : Type := mk
  { permno : Z; gvkey : option Z; time_avail_m : Z; ret : float;
    shrout : float }.
End Joined.

(** [df] after the merge with [monthly_short] (lines 80-82). *)
Module Frame.
Record row : Type := mk
  { permno : Z; gvkey : option Z; time_avail_m : Z; ret : float;
    shrout : float; shortint : float }.
End Frame.

(** The frame handed to [save_predictor]: [permno, time_avail_m,
    ShortConviction]. *)
Module Predictor.
Record row : Type := mk
  { permno : Z; time_avail_m : Z; ShortConviction : float }.
End Predictor.

(** ** pd.merge *)

Section Merge.

Context {L R K O : Type}.
Variable key_eqb : K -> K -> bool.
Variable left_on : L -> K.
Variable right_on : R -> K.

(** No key occurs twice. *)
Fixpoint is_unique (ks : list K) : bool :=
  match ks with
  | [] => true
  | k :: ks' => negb (existsb (key_eqb k) ks') && is_unique ks'
  end.

(** [validate="1:1"]: the merge keys are unique in both the left and the
    right data set. *)
Definition validate_1to1 (left : list L) (right : list R) : bool :=
  is_unique (map left_on left) && is_unique (map right_on right).

(** The rows of [right] whose key equals that of [l], in order. *)
Definition matching (l : L) (right : list R) : list R :=
  filter (fun r => key_eqb (left_on l) (right_on r)) right.

(** [how="inner"]: one row per matching pair, in the order of the left
    keys; a left row without a match yields nothing. *)
Definition inner_join (combine : L -> R -> O)
    (left : list L) (right : list R) : list O :=
  flat_map (fun l => map (combine l) (matching l right)) left.

(** [how="left"]: as above, but a left row without a match is kept, with
    the right-hand columns null. *)
Definition left_join (combine : L -> option R -> O)
    (left : list L) (right : list R) : list O :=
  flat_map (fun l =>
              match matching l right with
              | [] => [combine l None]
              | ms => map (fun r => combine l (Some r)) ms
              end) left.

(** [pd.merge(left, right, on=..., how=..., validate="1:1")]: the
    validation runs first and raises; otherwise the join is returned. *)
Definition merge_1to1 (join : list L -> list R -> list O)
    (left : list L) (right : list R) : result (list O) :=
  if validate_1to1 left right then Ok (join left right) else MergeError.

End Merge.

Definition pair_eqb {A : Type} (eqA : A -> A -> bool) (a b : A * Z) : bool :=
  eqA (fst a) (fst b) && (snd a =? snd b)%Z.

Definition option_Z_eqb (a b : option Z) : bool :=
  match a, b with
  | Some x, Some y => (x =? y)%Z
  | None, None => true
  | _, _ => false
  end.

(** Lines 58-64: [pd.merge(signal_master, monthly_crsp,
    on=["permno", "time_avail_m"], how="inner", validate="1:1")]. *)

Definition master_key (r : SignalMaster.row) : Z * Z :=
  (SignalMaster.permno r, SignalMaster.time_avail_m r).

Definition crsp_key (r : CRSP.row) : Z * Z :=
  (CRSP.permno r, CRSP.time_avail_m r).

Definition with_shrout (l : SignalMaster.row) (r : CRSP.row) : Joined.row :=
  Joined.mk (SignalMaster.permno l) (SignalMaster.gvkey l)
            (SignalMaster.time_avail_m l) (SignalMaster.ret l) (CRSP.shrout r).

Definition merge_crsp (signal_master : list SignalMaster.row)
    (monthly_crsp : list CRSP.row) : result (list Joined.row) :=
  merge_1to1 (pair_eqb Z.eqb) master_key crsp_key
    (inner_join (pair_eqb Z.eqb) master_key crsp_key with_shrout)
    signal_master monthly_crsp.

(** Lines 68 and 71: the split on [gvkey]. *)

Definition gvkey_isna (r : Joined.row) : bool :=
  match Joined.gvkey r with None => true | Some _ => false end.

Definition gvkey_notna (r : Joined.row) : bool := negb (gvkey_isna r).

(** Lines 80-82: [pd.merge(df, monthly_short, on=["gvkey", "time_avail_m"],
    how="left", validate="1:1")]. *)

Definition joined_gvkey_key (r : Joined.row) : option Z * Z :=
  (Joined.gvkey r, Joined.time_avail_m r).

Definition short_key (r : ShortInterest.row) : option Z * Z :=
  (ShortInterest.gvkey r, ShortInterest.time_avail_m r).

Definition with_shortint (l : Joined.row) (r : option ShortInterest.row)
    : Frame.row :=
  Frame.mk (Joined.permno l) (Joined.gvkey l) (Joined.time_avail_m l)
           (Joined.ret l) (Joined.shrout l)
           (match r with Some s => ShortInterest.shortint s | None => nan end).

Definition merge_short (df : list Joined.row)
    (monthly_short : list ShortInterest.row) : result (list Frame.row) :=
  merge_1to1 (pair_eqb option_Z_eqb) joined_gvkey_key short_key
    (left_join (pair_eqb option_Z_eqb) joined_gvkey_key short_key with_shortint)
    df monthly_short.

(** ** Signal construction (lines 89-115) *)

Local Open Scope float_scope.

(** Line 89: [df["SI_ratio"] = df["shortint"] / df["shrout"]]. *)
Definition SI_ratio (r : Frame.row) : float :=
  Frame.shortint r / Frame.shrout r.

(** Line 92: [df.sort_values(["permno", "time_avail_m"])], as a stable
    insertion sort on the lexicographic order of the two keys. *)

Definition key_leb (a b : Frame.row) : bool :=
  ((Frame.permno a <? Frame.permno b)
   || ((Frame.permno a =? Frame.permno b)
       && (Frame.time_avail_m a <=? Frame.time_avail_m b)))%Z.

Fixpoint insert_row (r : Frame.row) (df : list Frame.row) : list Frame.row :=
  match df with
  | [] => [r]
  | x :: df' => if key_leb r x then r :: df else x :: insert_row r df'
  end.

Definition sort_values (df : list Frame.row) : list Frame.row :=
  fold_right insert_row [] df.

(** Modelled from the spec: [utils.stata_replication.stata_multi_lag] is
    not among the sources.  Section 4.3 of the specification gives its
    contract: the new column holds, for each row, the value of the column in
    the row of the same entity exactly [n] calendar months earlier, and null
    when the frame has no such row (gaps are not bridged).  The function
    below is that column, [value_col_lag<n>], read at row [r]. *)
Definition stata_multi_lag (df : list Frame.row) (value_col : Frame.row -> float)
    (n : Z) (r : Frame.row) : float :=
  match
    find (fun r' => ((Frame.permno r' =? Frame.permno r)
                     && (Frame.time_avail_m r' =? Frame.time_avail_m r - n))%Z)
         df
  with
  | Some r' => value_col r'
  | None => nan
  end.

(** Line 96: [ret_lag1], [ret_lag2]; line 99: [SI_ratio_lag2]. *)
Definition ret_lag1 (df : list Frame.row) (r : Frame.row) : float :=
  stata_multi_lag df Frame.ret 1 r.

Definition ret_lag2 (df : list Frame.row) (r : Frame.row) : float :=
  stata_multi_lag df Frame.ret 2 r.

Definition SI_ratio_lag2 (df : list Frame.row) (r : Frame.row) : float :=
  stata_multi_lag df SI_ratio 2 r.

(** Line 103. *)
Definition cumret_2m (df : list Frame.row) (r : Frame.row) : float :=
  (1 + ret_lag1 df r) * (1 + ret_lag2 df r) - 1.

(** Line 107. *)
Definition SI_pct_change (df : list Frame.row) (r : Frame.row) : float :=
  (SI_ratio r - SI_ratio_lag2 df r) / SI_ratio_lag2 df r.

(** Line 112: [-df["SI_pct_change"] * df["cumret_2m"]]; the unary minus
    binds tighter than the product, in Python as here. *)
Definition ShortConviction_raw (df : list Frame.row) (r : Frame.row) : float :=
  - SI_pct_change df r * cumret_2m df r.

(** pandas' [Series.clip(lower, upper)] with scalar bounds: a null stays
    null, a value not [>= lower] becomes [lower], a value not [<= upper]
    becomes [upper]. *)
Definition clip (lower upper x : float) : float :=
  let result := if isna x || (lower <=? x) then x else lower in
  if isna x || (x <=? upper) then result else upper.

(** Line 115: the column [ShortConviction_raw] is overwritten by its
    clipped values; the overwritten column is [ShortConviction_raw_clip]
    here. *)
Definition ShortConviction_raw_clip (df : list Frame.row) (r : Frame.row)
    : float :=
  clip (-3) 3 (ShortConviction_raw df r).

(** ** Standardisation by month (lines 119-130) *)

Section Standardize.

(** pandas' group aggregations ["mean"] and ["std"], each a function of the
    non-null values of the group. *)
Variables agg_mean agg_std : list float -> float.

(** The non-null values of [ShortConviction_raw] in month [m]. *)
Definition group_values (df : list Frame.row) (m : Z) : list float :=
  filter notna
    (map (ShortConviction_raw_clip df)
         (filter (fun r => (Frame.time_avail_m r =? m)%Z) df)).

(** Line 119: [df.groupby("time_avail_m")["ShortConviction_raw"]
    .agg(["mean", "std"])]: one entry per month of the frame, indexed by the
    month. *)
Definition monthly_stats (df : list Frame.row) : list (Z * (float * float)) :=
  map (fun m => (m, (agg_mean (group_values df m), agg_std (group_values df m))))
      (nodup Z.eq_dec (map Frame.time_avail_m df)).

(** The statistics of the cohort of row [r]: those of its month. *)
Definition cohort_mean (df : list Frame.row) (r : Frame.row) : float :=
  agg_mean (group_values df (Frame.time_avail_m r)).

Definition cohort_std (df : list Frame.row) (r : Frame.row) : float :=
  agg_std (group_values df (Frame.time_avail_m r)).

Definition with_stats (r : Frame.row) (s : option (Z * (float * float)))
    : Frame.row * (float * float) :=
  (r, match s with Some (_, ms) => ms | None => (nan, nan) end).

(** Lines 120-122: [df.merge(monthly_stats, left_on="time_avail_m",
    right_index=True, how="left")], adding the columns [mean] and [std]. *)
Definition merge_stats (df : list Frame.row)
    : list (Frame.row * (float * float)) :=
  left_join Z.eqb Frame.time_avail_m fst with_stats df (monthly_stats df).

(** Lines 126-130: [np.where((df["std"] > 0) & raw.notna(),
    (raw - df["mean"]) / df["std"], np.nan)]. *)
Definition standardize (raw mean std : float) : float :=
  if (0 <? std) && notna raw then (raw - mean) / std else nan.

(** Line 133: the three output columns of a scored row. *)
Definition scored (df : list Frame.row) (e : Frame.row * (float * float))
    : Predictor.row :=
  let '(r, (mean, std)) := e in
  Predictor.mk (Frame.permno r) (Frame.time_avail_m r)
               (standardize (ShortConviction_raw_clip df r) mean std).

(** Line 136: [df_missing_gvkey["ShortConviction"] = np.nan]. *)
Definition missing_signal (r : Joined.row) : Predictor.row :=
  Predictor.mk (Joined.permno r) (Joined.time_avail_m r) nan.

(** Lines 85-133 on the frame with valid [gvkey]. *)
Definition signal (df : list Frame.row) : list Predictor.row :=
  let df := sort_values df in
  map (scored df) (merge_stats df).

(** The whole script up to the call of [save_predictor]: the frame passed
    to it, or the [MergeError] raised on the way. *)
Definition ShortConviction (signal_master : list SignalMaster.row)
    (monthly_crsp : list CRSP.row) (monthly_short : list ShortInterest.row)
    : result (list Predictor.row) :=
  df <- merge_crsp signal_master monthly_crsp ;;
  let df_missing_gvkey := filter gvkey_isna df in
  let df := filter gvkey_notna df in
  df <- merge_short df monthly_short ;;
  Ok (signal df ++ map missing_signal df_missing_gvkey).

End Standardize.

(** ** pandas' group aggregates

    [agg(["mean", "std"])] of line 119 runs two kernels of pandas
    ([group_mean] and [group_var] of [pandas/_libs/groupby.pyx]), which are
    not among the sources; the functions below follow them.  Each goes once
    through the values of the group in frame order, skips the nulls, and
    keeps a count [nobs] (an int64; a frame has fewer than 2^63 rows) and
    float64 accumulators. *)

(** The count as a float64, as C converts it in [sumx / count]. *)
Definition of_count (n : Z) : float := of_uint63 (Uint63.of_Z n).

(** [group_mean]: a Kahan-compensated sum,
    [y = val - compensation; t = sumx + y; compensation = t - sumx - y;
     sumx = t], the compensation being reset to 0 when it is NaN. *)
Module GroupMean.

Record state : Type := mk { nobs : Z; sumx : float; compensation : float }.

Definition init : state := mk 0 0 0.

Definition step (st : state) (val : float) : state :=
  if isna val then st
  else
    let y := val - compensation st in
    let t := sumx st + y in
    let c := t - sumx st - y in
    mk (nobs st + 1) t (if isna c then 0 else c).

End GroupMean.

(** ["mean"]: the sum over the count; NaN for a group without values. *)
Definition mean (xs : list float) : float :=
  let st := fold_left GroupMean.step xs GroupMean.init in
  if (GroupMean.nobs st =? 0)%Z then nan
  else GroupMean.sumx st / of_count (GroupMean.nobs st).

(** [group_var]: Welford's running mean and sum of squared deviations,
    [oldmean = mean; mean += (val - oldmean) / nobs;
     out += (val - mean) * (val - oldmean)]. *)
Module GroupVar.

Record state : Type := mk { nobs : Z; mean : float; out : float }.

Definition init : state := mk 0 0 0.

Definition step (st : state) (val : float) : state :=
  if isna val then st
  else
    let nobs := (nobs st + 1)%Z in
    let oldmean := mean st in
    let mean := oldmean + (val - oldmean) / of_count nobs in
    mk nobs mean (out st + (val - mean) * (val - oldmean)).

End GroupVar.

(** ["std"], with pandas' default [ddof = 1]: NaN when [nobs <= ddof],
    else [sqrt(out / (nobs - ddof))]. *)
Definition std (xs : list float) : float :=
  let st := fold_left GroupVar.step xs GroupVar.init in
  if (GroupVar.nobs st <=? 1)%Z then nan
  else PrimFloat.sqrt (GroupVar.out st / (of_count (GroupVar.nobs st) - 1)).

Local Close Scope float_scope.

(** ** Keys of the intermediate and final frames *)

Definition joined_key (r : Joined.row) : Z * Z :=
  (Joined.permno r, Joined.time_avail_m r).

Definition frame_key (r : Frame.row) : Z * Z :=
  (Frame.permno r, Frame.time_avail_m r).

Definition predictor_key (r : Predictor.row) : Z * Z :=
  (Predictor.permno r, Predictor.time_avail_m r).

(** The master row has a partner in [monthly_crsp]. *)
Definition in_crsp (monthly_crsp : list CRSP.row) (l : SignalMaster.row) : bool :=
  existsb (fun c => pair_eqb Z.eqb (master_key l) (crsp_key c)) monthly_crsp.

(** ** A small run

    Three securities with a valid [gvkey] over months 1 to 3, one security
    without [gvkey], and one that [monthly_crsp] does not carry.  Short
    interest: company 10 had none in month 1 (the ratio two months before
    month 3 is zero), company 30 has no record in month 3.  All values are
    binary fractions, so the literals are exact. *)

Module Sample.

Definition signal_master : list SignalMaster.row :=
  [ SignalMaster.mk 1 (Some 10%Z) 1 0.5%float;
    SignalMaster.mk 1 (Some 10%Z) 2 0.25%float;
    SignalMaster.mk 1 (Some 10%Z) 3 0.125%float;
    SignalMaster.mk 2 (Some 20%Z) 1 0.25%float;
    SignalMaster.mk 2 (Some 20%Z) 2 0.25%float;
    SignalMaster.mk 2 (Some 20%Z) 3 0.125%float;
    SignalMaster.mk 3 (Some 30%Z) 1 0.5%float;
    SignalMaster.mk 3 (Some 30%Z) 2 0.5%float;
    SignalMaster.mk 3 (Some 30%Z) 3 0.125%float;
    SignalMaster.mk 4 None 3 0.25%float;
    SignalMaster.mk 5 (Some 50%Z) 3 0.25%float ].

Definition monthly_crsp : list CRSP.row :=
  [ CRSP.mk 1 1 128%float; CRSP.mk 1 2 128%float; CRSP.mk 1 3 128%float;
    CRSP.mk 2 1 128%float; CRSP.mk 2 2 128%float; CRSP.mk 2 3 128%float;
    CRSP.mk 3 1 128%float; CRSP.mk 3 2 128%float; CRSP.mk 3 3 128%float;
    CRSP.mk 4 3 128%float ].

Definition monthly_short : list ShortInterest.row :=
  [ ShortInterest.mk (Some 10%Z) 1 0%float;
    ShortInterest.mk (Some 10%Z) 3 16%float;
    ShortInterest.mk (Some 20%Z) 1 8%float;
    ShortInterest.mk (Some 20%Z) 3 16%float;
    ShortInterest.mk (Some 30%Z) 1 8%float ].

(** The frame the signal is built on: the sorted result of the two merges. *)
Definition df : list Frame.row :=
  match merge_crsp signal_master monthly_crsp with
  | Ok joined =>
    match merge_short (filter gvkey_notna joined) monthly_short with
    | Ok frame => sort_values frame
    | MergeError => []
    end
  | MergeError => []
  end.

(** Its rows for month 3. *)
Definition row_1_3 : Frame.row :=
  Frame.mk 1 (Some 10%Z) 3 0.125%float 128%float 16%float.

Definition row_2_3 : Frame.row :=
  Frame.mk 2 (Some 20%Z) 3 0.125%float 128%float 16%float.

Definition row_3_3 : Frame.row :=
  Frame.mk 3 (Some 30%Z) 3 0.125%float 128%float nan.

(** What the script hands to [save_predictor] on these tables. *)
Definition output : list Predictor.row :=
  match ShortConviction mean std signal_master monthly_crsp monthly_short with
  | Ok out => out
  | MergeError => []
  end.

(** A master table that lists security 1 twice in month 3. *)
Definition signal_master_repeated : list SignalMaster.row :=
  [ SignalMaster.mk 1 (Some 10%Z) 3 0.125%float;
    SignalMaster.mk 1 (Some 10%Z) 3 0.25%float ].

(** A second master table, where security 6 carries the [gvkey] of
    security 1 in month 3: the key of the second merge repeats on its left
    side. *)
Definition signal_master_shared_gvkey : list SignalMaster.row :=
  [ SignalMaster.mk 1 (Some 10%Z) 3 0.125%float;
    SignalMaster.mk 6 (Some 10%Z) 3 0.25%float ].

Definition monthly_crsp_shared_gvkey : list CRSP.row :=
  [ CRSP.mk 1 3 128%float; CRSP.mk 6 3 64%float ].

End Sample.

(** ** Mean and standard deviation as the specification has them

    The specification speaks of the mean and the (sample) standard
    deviation of the values of a month, and of scores with mean 0 and
    standard deviation 1.  These are the two notions over the real numbers:
    the sum over the count, and the square root of the summed squared
    deviations from the mean over the count less one.  The script computes
    neither; they are what its binary64 results [mean], [std] and
    [standardize] are compared with. *)

Module Exact.

Local Open Scope R_scope.

Definition sum (xs : list R) : R := fold_right Rplus 0 xs.

Definition count (xs : list R) : R := INR (length xs).

Definition mean (xs : list R) : R := sum xs / count xs.

Definition std (xs : list R) : R :=
  sqrt (sum (map (fun x => (x - mean xs) * (x - mean xs)) xs) / (count xs - 1)).

End Exact.

(** The real number a binary64 value stands for: [m * 2^e] with its sign
    for a finite value, 0 for a zero.  An infinity and NaN stand for no
    number (they are given 0 here, and [represents] excludes them). *)
Definition SF2R (x : spec_float) : R :=
  match x with
  | S754_finite s m e => (IZR (cond_Zopp s (Zpos m)) * powerRZ 2 e)%R
  | _ => 0%R
  end.

Definition to_R (x : float) : R := SF2R (Prim2SF x).

(** The binary64 result [x] is a number and is the real number [v]: it
    carries no rounding error. *)
Definition represents (x : float) (v : R) : Prop :=
  is_finite x = true /\ to_R x = v.

(** *** Runs of the kernels without rounding error

    [group_mean] on the numbers [xs] from the state [st]: every update
    leaves the accumulators with the exact value of its right-hand side,
    [sumx + (val - compensation)] for the sum and [t - sumx - y] for the
    compensation. *)
Fixpoint mean_steps_exact (st : GroupMean.state) (xs : list float) : Prop :=
  match xs with
  | [] => True
  | val :: xs' =>
    let st' := GroupMean.step st val in
    is_finite val = true /\
    represents (GroupMean.sumx st')
      (to_R (GroupMean.sumx st)
       + (to_R val - to_R (GroupMean.compensation st)))%R /\
    represents (GroupMean.compensation st')
      (to_R (GroupMean.sumx st') - to_R (GroupMean.sumx st)
       - (to_R val - to_R (GroupMean.compensation st)))%R /\
    mean_steps_exact st' xs'
  end.

(** ["mean"] of [xs] without rounding error: the updates, and the final
    quotient [sumx / count]. *)
Definition mean_exact (xs : list float) : Prop :=
  let st := fold_left GroupMean.step xs GroupMean.init in
  mean_steps_exact GroupMean.init xs /\
  represents (mean xs) (to_R (GroupMean.sumx st) / IZR (GroupMean.nobs st))%R.

(** The same for [group_var]: the updates
    [mean + (val - mean) / nobs] and [out + (val - mean') * (val - mean)]. *)
Fixpoint var_steps_exact (st : GroupVar.state) (xs : list float) : Prop :=
  match xs with
  | [] => True
  | val :: xs' =>
    let st' := GroupVar.step st val in
    is_finite val = true /\
    represents (GroupVar.mean st')
      (to_R (GroupVar.mean st)
       + (to_R val - to_R (GroupVar.mean st)) / IZR (GroupVar.nobs st'))%R /\
    represents (GroupVar.out st')
      (to_R (GroupVar.out st)
       + (to_R val - to_R (GroupVar.mean st'))
         * (to_R val - to_R (GroupVar.mean st)))%R /\
    var_steps_exact st' xs'
  end.

(** ["std"] of [xs] without rounding error: the updates, and the final
    [sqrt(out / (nobs - 1))]. *)
Definition std_exact (xs : list float) : Prop :=
  let st := fold_left GroupVar.step xs GroupVar.init in
  var_steps_exact GroupVar.init xs /\
  represents (std xs)
    (sqrt (to_R (GroupVar.out st) / (IZR (GroupVar.nobs st) - 1))).

(** The accumulators of [group_var] over copies of one number [x]: the
    sum of squared deviations stays [0], the mean is [x] (or [0] when [x] is
    a zero). *)
Definition constant_state (x : float) (st : GroupVar.state) : Prop :=
  GroupVar.out st = 0%float /\
  (GroupVar.mean st = x \/ (is_zero x = true /\ GroupVar.mean st = 0%float)).

(** The sum of the squares. *)
Definition sumsq (xs : list R) : R := Exact.sum (map (fun y => y * y)%R xs).

(** ** Orders and tests used further down *)

(** The lexicographic order of the keys [(permno, time_avail_m)]. *)
Definition lex_le (a b : Z * Z) : Prop :=
  (fst a < fst b \/ (fst a = fst b /\ snd a <= snd b))%Z.

Definition lex_lt (a b : Z * Z) : Prop :=
  (fst a < fst b \/ (fst a = fst b /\ snd a < snd b))%Z.

(** The master row carries a [gvkey]. *)
Definition master_gvkey_notna (l : SignalMaster.row) : bool :=
  match SignalMaster.gvkey l with Some _ => true | None => false end.

(** ** More of the small run *)

Module Sample2.

(** The frame after the merge with [monthly_crsp], and its part with a
    valid [gvkey] after the merge with [monthly_short]. *)
Definition joined : list Joined.row :=
  match merge_crsp Sample.signal_master Sample.monthly_crsp with
  | Ok df => df
  | MergeError => []
  end.

Definition frame : list Frame.row :=
  match merge_short (filter gvkey_notna joined) Sample.monthly_short with
  | Ok df => df
  | MergeError => []
  end.

(** The master table of the small run without security 4, the one row
    without [gvkey], and what the script makes of it. *)
Definition signal_master_valid : list SignalMaster.row :=
  filter master_gvkey_notna Sample.signal_master.

Definition output_valid : list Predictor.row :=
  match
    ShortConviction mean std signal_master_valid Sample.monthly_crsp
      Sample.monthly_short
  with
  | Ok out => out
  | MergeError => []
  end.

End Sample2.

(** ** A run over six months

    Three securities with a valid [gvkey] and one without.  The raw
    factors exist from month 3 on: three in month 3, two in month 4 (company
    30 reports no short interest after month 3), one in month 5 (company 20
    reports none in month 5), and two equal ones in month 6.  All inputs are
    binary fractions. *)

Module Panel.

Definition signal_master : list SignalMaster.row :=
  [ SignalMaster.mk 1 (Some 10%Z) 1 1%float;
    SignalMaster.mk 1 (Some 10%Z) 2 0%float;
    SignalMaster.mk 1 (Some 10%Z) 3 1%float;
    SignalMaster.mk 1 (Some 10%Z) 4 0%float;
    SignalMaster.mk 1 (Some 10%Z) 5 1%float;
    SignalMaster.mk 1 (Some 10%Z) 6 0.25%float;
    SignalMaster.mk 2 (Some 20%Z) 1 0.5%float;
    SignalMaster.mk 2 (Some 20%Z) 2 1%float;
    SignalMaster.mk 2 (Some 20%Z) 3 0.5%float;
    SignalMaster.mk 2 (Some 20%Z) 4 0%float;
    SignalMaster.mk 2 (Some 20%Z) 5 1%float;
    SignalMaster.mk 2 (Some 20%Z) 6 0.25%float;
    SignalMaster.mk 3 (Some 30%Z) 1 (-0.5)%float;
    SignalMaster.mk 3 (Some 30%Z) 2 0%float;
    SignalMaster.mk 3 (Some 30%Z) 3 0.25%float;
    SignalMaster.mk 3 (Some 30%Z) 4 0.25%float;
    SignalMaster.mk 4 None 3 0.25%float ].

(** Every security has 128 shares outstanding in every month. *)
Definition monthly_crsp : list CRSP.row :=
  map (fun l => CRSP.mk (SignalMaster.permno l) (SignalMaster.time_avail_m l)
                        128%float)
      signal_master.

Definition monthly_short : list ShortInterest.row :=
  [ ShortInterest.mk (Some 10%Z) 1 8%float;
    ShortInterest.mk (Some 10%Z) 2 8%float;
    ShortInterest.mk (Some 10%Z) 3 16%float;
    ShortInterest.mk (Some 10%Z) 4 16%float;
    ShortInterest.mk (Some 10%Z) 5 8%float;
    ShortInterest.mk (Some 10%Z) 6 32%float;
    ShortInterest.mk (Some 20%Z) 1 8%float;
    ShortInterest.mk (Some 20%Z) 2 8%float;
    ShortInterest.mk (Some 20%Z) 3 4%float;
    ShortInterest.mk (Some 20%Z) 4 4%float;
    ShortInterest.mk (Some 20%Z) 6 8%float;
    ShortInterest.mk (Some 30%Z) 1 2%float;
    ShortInterest.mk (Some 30%Z) 2 2%float;
    ShortInterest.mk (Some 30%Z) 3 14%float ].

Definition joined : list Joined.row :=
  match merge_crsp signal_master monthly_crsp with
  | Ok df => df
  | MergeError => []
  end.

Definition frame : list Frame.row :=
  match merge_short (filter gvkey_notna joined) monthly_short with
  | Ok df => df
  | MergeError => []
  end.

(** The frame the signal is built on. *)
Definition df : list Frame.row := sort_values frame.

(** The non-null clipped raw factors of the rows of month [m], in frame
    order. *)
Definition cohort (m : Z) : list float :=
  filter notna
    (map (ShortConviction_raw_clip df)
         (filter (fun r => (Frame.time_avail_m r =? m)%Z) df)).

(** The frame handed to [save_predictor].  In month 3 the raw factors are
    -1, 1 and 3 (mean 1, standard deviation 2); in month 4 they are -1 and 1
    (mean 0, standard deviation the square root of 2, the scores being
    minus and plus its reciprocal); months 5 and 6 have no score, nor have
    months 1 and 2, which lack the rows two months before. *)
Definition output : list Predictor.row :=
  [ Predictor.mk 1 1 nan; Predictor.mk 1 2 nan;
    Predictor.mk 1 3 (-1)%float;
    Predictor.mk 1 4 (-0x1.6a09e667f3bccp-1)%float;
    Predictor.mk 1 5 nan; Predictor.mk 1 6 nan;
    Predictor.mk 2 1 nan; Predictor.mk 2 2 nan;
    Predictor.mk 2 3 0%float;
    Predictor.mk 2 4 0x1.6a09e667f3bccp-1%float;
    Predictor.mk 2 5 nan; Predictor.mk 2 6 nan;
    Predictor.mk 3 1 nan; Predictor.mk 3 2 nan;
    Predictor.mk 3 3 1%float; Predictor.mk 3 4 nan;
    Predictor.mk 4 3 nan ].

(** The non-null scores of month [m] in the output. *)
Definition scores (m : Z) : list float :=
  filter notna
    (map Predictor.ShortConviction
         (filter (fun o => (Predictor.time_avail_m o =? m)%Z) output)).

End Panel.

(** ** A run with two raw factors one unit in the last place apart

    Two securities whose short interest falls from 8 to 0 over two months
    (a percentage change of -1), so that the raw factor of month 3 is the
    cumulative return: 3 for the first, and for the second
    [3 - 2^-51 = 0x1.7ffffffffffffp+1], the binary64 number just below 3. *)

Module Adjacent.

Definition signal_master : list SignalMaster.row :=
  [ SignalMaster.mk 1 (Some 10%Z) 1 1%float;
    SignalMaster.mk 1 (Some 10%Z) 2 1%float;
    SignalMaster.mk 1 (Some 10%Z) 3 0%float;
    SignalMaster.mk 2 (Some 20%Z) 1 0%float;
    SignalMaster.mk 2 (Some 20%Z) 2 0x1.7ffffffffffffp+1%float;
    SignalMaster.mk 2 (Some 20%Z) 3 0%float ].

Definition monthly_crsp : list CRSP.row :=
  map (fun l => CRSP.mk (SignalMaster.permno l) (SignalMaster.time_avail_m l)
                        128%float)
      signal_master.

Definition monthly_short : list ShortInterest.row :=
  [ ShortInterest.mk (Some 10%Z) 1 8%float;
    ShortInterest.mk (Some 10%Z) 3 0%float;
    ShortInterest.mk (Some 20%Z) 1 8%float;
    ShortInterest.mk (Some 20%Z) 3 0%float ].

Definition joined : list Joined.row :=
  match merge_crsp signal_master monthly_crsp with
  | Ok df => df
  | MergeError => []
  end.

Definition frame : list Frame.row :=
  match merge_short (filter gvkey_notna joined) monthly_short with
  | Ok df => df
  | MergeError => []
  end.

Definition df : list Frame.row := sort_values frame.

Definition cohort (m : Z) : list float :=
  filter notna
    (map (ShortConviction_raw_clip df)
         (filter (fun r => (Frame.time_avail_m r =? m)%Z) df)).

Definition output : list Predictor.row :=
  [ Predictor.mk 1 1 nan; Predictor.mk 1 2 nan; Predictor.mk 1 3 0%float;
    Predictor.mk 2 1 nan; Predictor.mk 2 2 nan; Predictor.mk 2 3 (-1)%float ].

Definition scores (m : Z) : list float :=
  filter notna
    (map Predictor.ShortConviction
         (filter (fun o => (Predictor.time_avail_m o =? m)%Z) output)).

End Adjacent.

(** ** Classes of binary64 numbers

    On the inductive description of a binary64 number: not a number, a
    zero of either sign, an infinity of either sign. *)

Definition SFis_nan (x : spec_float) : bool :=
  match x with S754_nan => true | _ => false end.

Definition SFis_zero (x : spec_float) : bool :=
  match x with S754_zero _ => true | _ => false end.

Definition SFis_infinity (x : spec_float) : bool :=
  match x with S754_infinity _ => true | _ => false end.

(** ** binary64 facts

    The operations of [PrimFloat] are related to the inductive description
    [spec_float] by the library's specification lemmas; the facts below are
    derived from these. *)

Module F64.

Local Open Scope float_scope.

(** *** Classes: the tests of [PrimFloat] on the inductive description *)

Lemma SFcompare_refl (x : spec_float) :
  x <> S754_nan -> SFcompare x x = Some Eq.
Proof.
  destruct x as [s | s | | s m e]; simpl; intros H;
    try congruence; try (destruct s; reflexivity).
  destruct s; rewrite Z.compare_refl, Pos.compare_cont_refl; reflexivity.
Qed.

Lemma is_nan_spec (x : float) : is_nan x = true <-> Prim2SF x = S754_nan.
Proof.
  unfold is_nan. rewrite eqb_spec. unfold SFeqb. split.
  - intros H. destruct (Prim2SF x) eqn:E; try reflexivity;
      rewrite SFcompare_refl in H by discriminate; discriminate.
  - intros ->. reflexivity.
Qed.

Lemma is_nan_false_spec (x : float) : is_nan x = false <-> Prim2SF x <> S754_nan.
Proof.
  rewrite <- is_nan_spec. destruct (is_nan x); split; congruence.
Qed.

Lemma SFis_nan_false (x : spec_float) : x <> S754_nan -> SFis_nan x = false.
Proof. destruct x; simpl; congruence. Qed.

Lemma is_nan_class (x : float) : is_nan x = SFis_nan (Prim2SF x).
Proof.
  destruct (is_nan x) eqn:E.
  - apply is_nan_spec in E. now rewrite E.
  - apply is_nan_false_spec in E. symmetry. now apply SFis_nan_false.
Qed.

Lemma is_zero_class (x : float) : is_zero x = SFis_zero (Prim2SF x).
Proof.
  unfold is_zero. rewrite eqb_spec.
  change (Prim2SF zero) with (S754_zero false).
  destruct (Prim2SF x) as [s | s | | s m e]; try reflexivity;
    destruct s; reflexivity.
Qed.

Lemma is_infinity_class (x : float) :
  is_infinity x = SFis_infinity (Prim2SF x).
Proof.
  unfold is_infinity. rewrite eqb_spec, abs_spec.
  change (Prim2SF infinity) with (S754_infinity false).
  destruct (Prim2SF x) as [s | s | | s m e]; reflexivity.
Qed.

Lemma is_nan_opp (x : float) : is_nan (- x) = is_nan x.
Proof.
  apply eq_true_iff_eq. rewrite !is_nan_spec, opp_spec.
  destruct (Prim2SF x); simpl; split; congruence.
Qed.



(** *** The order

    [x < y] and [y <= x] never both hold; a number that compares is not
    NaN; the bounds of the clip, -3 and 3, as binary64 numbers. *)

Lemma SFcompare_antisym (x y : spec_float) :
  SFcompare y x = option_map CompOpp (SFcompare x y).
Proof.
  destruct x as [s | s | | s m e], y as [s' | s' | | s' m' e']; simpl;
    try reflexivity;
    try (destruct s; reflexivity); try (destruct s'; reflexivity);
    try (destruct s, s'; reflexivity).
  pose proof (Pos.compare_cont_antisym m m' Eq) as Hm. simpl in Hm.
  destruct s, s'; try reflexivity;
    rewrite (Z.compare_antisym e e'), <- Hm;
    destruct (e ?= e')%Z; simpl; try reflexivity;
    destruct (Pos.compare_cont Eq m m'); reflexivity.
Qed.

Lemma ltb_leb_false x y : (x <? y) = true -> (y <=? x) = false.
Proof.
  rewrite ltb_spec, leb_spec. unfold SFltb, SFleb.
  rewrite (SFcompare_antisym (Prim2SF x) (Prim2SF y)).
  destruct (SFcompare (Prim2SF x) (Prim2SF y)) as [[ | | ] | ];
    simpl; congruence.
Qed.

Lemma ltb_not_nan_l x y : (x <? y) = true -> is_nan x = false.
Proof.
  rewrite is_nan_class, ltb_spec. unfold SFltb.
  destruct (Prim2SF x); simpl; congruence.
Qed.

Lemma ltb_not_nan_r x y : (x <? y) = true -> is_nan y = false.
Proof.
  rewrite is_nan_class, ltb_spec. unfold SFltb.
  destruct (Prim2SF x), (Prim2SF y); simpl; congruence.
Qed.

Lemma zero_ltb_not_zero x : (0 <? x) = true -> is_zero x = false.
Proof.
  rewrite is_zero_class, ltb_spec.
  change (Prim2SF 0) with (S754_zero false).
  destruct (Prim2SF x); simpl; unfold SFltb; simpl; congruence.
Qed.

Lemma Prim2SF_three : Prim2SF 3 = S754_finite false 6755399441055744 (-51).
Proof. reflexivity. Qed.

Lemma Prim2SF_minus_three :
  Prim2SF (-3) = S754_finite true 6755399441055744 (-51).
Proof. reflexivity. Qed.

Lemma ltb_minus_three_leb_three x : (x <? -3) = true -> (x <=? 3) = true.
Proof.
  rewrite ltb_spec, leb_spec, Prim2SF_three, Prim2SF_minus_three.
  unfold SFltb, SFleb.
  destruct (Prim2SF x) as [[ | ] | [ | ] | | [ | ] m e]; cbn [SFcompare];
    intros; first [reflexivity | discriminate].
Qed.

Lemma bounded_not_infinity x :
  (-3 <=? x) = true -> (x <=? 3) = true -> is_infinity x = false.
Proof.
  rewrite is_infinity_class, !leb_spec, Prim2SF_three, Prim2SF_minus_three.
  unfold SFleb.
  destruct (Prim2SF x) as [[ | ] | [ | ] | | [ | ] m e]; cbn [SFcompare];
    intros; first [reflexivity | discriminate].
Qed.

(** *** Rounding never produces NaN *)

Lemma shr_1_nonneg (mrs : shr_record) :
  (0 <= shr_m mrs)%Z -> (0 <= shr_m (shr_1 mrs))%Z.
Proof.
  destruct mrs as [m r s]. simpl.
  destruct m as [ | [p | p | ] | [p | p | ]]; simpl; lia.
Qed.

Lemma iter_pos_shr_1_nonneg (p : positive) (mrs : shr_record) :
  (0 <= shr_m mrs)%Z -> (0 <= shr_m (SpecFloat.iter_pos shr_1 p mrs))%Z.
Proof.
  revert mrs. induction p as [p IH | p IH | ]; simpl; intros mrs H.
  - apply IH, IH, shr_1_nonneg, H.
  - apply IH, IH, H.
  - apply shr_1_nonneg, H.
Qed.

Lemma shr_fexp_nonneg (m e : Z) (l : location) :
  (0 <= m)%Z -> (0 <= shr_m (fst (shr_fexp prec emax m e l)))%Z.
Proof.
  intros H. unfold shr_fexp, shr.
  assert (H0 : (0 <= shr_m (shr_record_of_loc m l))%Z)
    by (destruct l as [ | [ | | ]]; exact H).
  destruct (fexp prec emax (Zdigits2 m + e) - e)%Z; simpl; try exact H0.
  apply iter_pos_shr_1_nonneg, H0.
Qed.

Lemma round_nearest_even_nonneg (m : Z) (l : location) :
  (0 <= m)%Z -> (0 <= round_nearest_even m l)%Z.
Proof.
  intros H. destruct l as [ | [ | | ]]; simpl; try lia.
  destruct (Z.even m); lia.
Qed.

Lemma binary_round_aux_not_nan (s : bool) (m e : Z) (l : location) :
  (0 <= m)%Z -> binary_round_aux prec emax s m e l <> S754_nan.
Proof.
  intros H. unfold binary_round_aux.
  pose proof (shr_fexp_nonneg m e l H) as H1.
  destruct (shr_fexp prec emax m e l) as [mrs' e']. simpl in H1.
  pose proof (shr_fexp_nonneg _ e' loc_Exact
                (round_nearest_even_nonneg _ (loc_of_shr_record mrs') H1)) as H2.
  destruct (shr_fexp prec emax _ e' loc_Exact) as [mrs'' e'']. simpl in H2.
  destruct (shr_m mrs'') as [ | p | p]; try discriminate; try lia.
  destruct (e'' <=? emax - prec)%Z; discriminate.
Qed.

Lemma binary_normalize_not_nan (m e : Z) (s : bool) :
  binary_normalize prec emax m e s <> S754_nan.
Proof.
  unfold binary_normalize, binary_round.
  destruct m as [ | p | p]; try discriminate;
    destruct (shl_align p e _) as [mz ez];
    apply binary_round_aux_not_nan; lia.
Qed.

Lemma SFdiv_core_binary_nonneg (m1 m2 : positive) (e1 e2 : Z) :
  (0 <= fst (fst (SFdiv_core_binary prec emax (Zpos m1) e1 (Zpos m2) e2)))%Z.
Proof.
  unfold SFdiv_core_binary.
  set (s := (_ - _ - _)%Z).
  set (m' := match s with Zpos _ => Z.shiftl (Zpos m1) s | Z0 => Zpos m1
             | Zneg _ => 0%Z end).
  assert (Hm : (0 <= m')%Z).
  { subst m'. destruct s; try lia. apply Z.shiftl_nonneg. lia. }
  pose proof (Z.div_pos m' (Zpos m2) Hm ltac:(lia)) as Hq.
  unfold Z.div in Hq. destruct (Z.div_eucl m' (Zpos m2)) as [q r].
  exact Hq.
Qed.

Lemma SFsub_finite_not_nan (s s' : bool) (m m' : positive) (e e' : Z) :
  SF64sub (S754_finite s m e) (S754_finite s' m' e') <> S754_nan.
Proof. apply binary_normalize_not_nan. Qed.


(** *** When an operation yields NaN

    A product: an operand is NaN, or one is infinite and the other zero.
    A quotient: an operand is NaN, or both are infinite, or both zero.
    A difference: an operand is NaN, or both are the same infinity.
    The percentage change [(a - b) / b]: [a] or [b] is NaN, or [b] is
    infinite, or both are zero. *)


Lemma SFdiv_nan (x y : spec_float) :
  SFis_nan (SF64div x y) =
  SFis_nan x || SFis_nan y || (SFis_infinity x && SFis_infinity y)
  || (SFis_zero x && SFis_zero y).
Proof.
  destruct x as [s | s | | s m e], y as [s' | s' | | s' m' e'];
    try reflexivity.
  unfold SF64div, SFdiv.
  pose proof (SFdiv_core_binary_nonneg m m' e e') as H.
  destruct (SFdiv_core_binary prec emax (Zpos m) e (Zpos m') e')
    as [[mz ez] lz].
  simpl in H. simpl. apply SFis_nan_false, binary_round_aux_not_nan, H.
Qed.


Lemma SFpct_nan (a b : spec_float) :
  SFis_nan (SF64div (SF64sub a b) b) =
  SFis_nan a || SFis_nan b || SFis_infinity b || (SFis_zero a && SFis_zero b).
Proof.
  rewrite SFdiv_nan.
  destruct a as [s | s | | s m e], b as [s' | s' | | s' m' e'];
    try reflexivity;
    try (destruct s, s'; reflexivity).
  rewrite (SFis_nan_false _ (SFsub_finite_not_nan s s' m m' e e')).
  simpl. rewrite !andb_false_r. reflexivity.
Qed.


Lemma is_nan_mul_l x y : is_nan x = true -> is_nan (x * y) = true.
Proof. rewrite !is_nan_spec, mul_spec. intros ->. reflexivity. Qed.

Lemma is_nan_div (x y : float) :
  is_nan (x / y) =
  is_nan x || is_nan y || (is_infinity x && is_infinity y)
  || (is_zero x && is_zero y).
Proof.
  rewrite !is_nan_class, !is_zero_class, !is_infinity_class, div_spec.
  apply SFdiv_nan.
Qed.


Lemma is_nan_pct (a b : float) :
  is_nan ((a - b) / b) =
  is_nan a || is_nan b || is_infinity b || (is_zero a && is_zero b).
Proof.
  rewrite !is_nan_class, !is_zero_class, !is_infinity_class, div_spec, sub_spec.
  apply SFpct_nan.
Qed.



(** *** Dividing a number other than zero by zero gives an infinity *)

Lemma is_infinity_pct_zero (a b : float) :
  is_zero b = true -> is_nan a = false -> is_zero a = false ->
  is_infinity ((a - b) / b) = true.
Proof.
  rewrite is_nan_class, !is_zero_class, is_infinity_class, div_spec, sub_spec.
  destruct (Prim2SF a) as [s | s | | s m e], (Prim2SF b) as [s' | s' | | s' m' e'];
    simpl; intros; try discriminate; reflexivity.
Qed.

(** *** Multiplying by -1 is negation *)

Lemma iter_succ_add (n d : positive) :
  Zpos (Pos.iter Pos.succ d n) = (Zpos d + Zpos n)%Z.
Proof.
  induction n as [ | n IH] using Pos.peano_ind.
  - simpl. lia.
  - rewrite Pos.iter_succ. lia.
Qed.

Lemma digits2_pos_shift52 (m : positive) :
  Zpos (digits2_pos (4503599627370496 * m)) = (Zpos (digits2_pos m) + 52)%Z.
Proof.
  assert (H : digits2_pos (4503599627370496 * m)
              = Pos.iter Pos.succ (digits2_pos m) 52)
    by (vm_compute; reflexivity).
  rewrite H. apply iter_succ_add.
Qed.

Lemma shr_shift52 (m : positive) :
  SpecFloat.iter_pos shr_1 52
    (shr_record_of_loc (Zpos (4503599627370496 * m)) loc_Exact)
  = {| shr_m := Zpos m; shr_r := false; shr_s := false |}.
Proof. vm_compute. reflexivity. Qed.

Lemma SFmul_minus_one (x : spec_float) :
  valid_binary x = true ->
  SF64mul (S754_finite true 4503599627370496 (-52)) x = SFopp x.
Proof.
  destruct x as [s | s | | s m e]; try reflexivity.
  intros H. apply andb_true_iff in H. destruct H as [Hc He].
  apply Z.eqb_eq in Hc. apply Z.leb_le in He.
  unfold SF64mul, SFmul, binary_round_aux, shr_fexp, Zdigits2.
  rewrite digits2_pos_shift52.
  replace (Z.pos (digits2_pos m) + 52 + (-52 + e))%Z
    with (Z.pos (digits2_pos m) + e)%Z by lia.
  rewrite Hc.
  replace (e - (-52 + e))%Z with 52%Z by lia.
  unfold shr at 1. rewrite shr_shift52.
  cbn [shr_m loc_of_shr_record round_nearest_even].
  replace (-52 + e + 52)%Z with e by lia.
  rewrite Hc, Z.sub_diag. cbn [shr shr_m].
  apply Z.leb_le in He. rewrite He. reflexivity.
Qed.

Lemma mul_minus_one (x : float) : -1 * x = - x.
Proof.
  apply Prim2SF_inj. rewrite mul_spec, opp_spec.
  change (Prim2SF (-1)) with (S754_finite true 4503599627370496 (-52)).
  apply SFmul_minus_one, Prim2SF_valid.
Qed.

End F64.

(** ** The clip and the z-score *)

Section ClipFacts.

Import F64.
Local Open Scope float_scope.

(** *** The clip *)

Lemma clip_isna (lower upper x : float) :
  isna x = true -> clip lower upper x = x.
Proof. unfold clip. intros ->. reflexivity. Qed.

Lemma clip_inside (lower upper x : float) :
  (lower <=? x) = true -> (x <=? upper) = true -> clip lower upper x = x.
Proof. unfold clip. intros -> ->. now rewrite !orb_true_r. Qed.

Lemma clip_below (x : float) : (x <? -3) = true -> clip (-3) 3 x = -3.
Proof.
  intros H. unfold clip, isna.
  rewrite (ltb_not_nan_l _ _ H), (ltb_leb_false _ _ H),
    (ltb_minus_three_leb_three _ H).
  reflexivity.
Qed.

Lemma clip_above (x : float) : (3 <? x) = true -> clip (-3) 3 x = 3.
Proof.
  intros H. unfold clip, isna.
  rewrite (ltb_not_nan_r _ _ H), (ltb_leb_false _ _ H). reflexivity.
Qed.

Lemma clip_bounds (x : float) :
  isna x = false ->
  (-3 <=? clip (-3) 3 x) = true /\ (clip (-3) 3 x <=? 3) = true.
Proof.
  unfold clip. intros ->. simpl.
  destruct (-3 <=? x) eqn:Elo, (x <=? 3) eqn:Ehi; split;
    try assumption; reflexivity.
Qed.

Lemma clip_is_nan (x : float) : is_nan (clip (-3) 3 x) = is_nan x.
Proof.
  destruct (is_nan x) eqn:E.
  - rewrite clip_isna; assumption.
  - unfold clip, isna. rewrite E. simpl.
    destruct (-3 <=? x), (x <=? 3); try assumption; reflexivity.
Qed.

(** *** The z-score *)


End ClipFacts.

(** ** Facts about the merges *)

Section MergeFacts.

Context {L R K O : Type}.
Variable key_eqb : K -> K -> bool.
Hypothesis key_eqb_eq : forall a b, key_eqb a b = true <-> a = b.
Variable left_on : L -> K.
Variable right_on : R -> K.

Lemma existsb_key_In (k : K) (ks : list K) :
  existsb (key_eqb k) ks = true <-> In k ks.
Proof.
  rewrite existsb_exists. split.
  - intros [k' [Hin Hk]]. apply key_eqb_eq in Hk. now subst.
  - intros Hin. exists k. split; [assumption | now apply key_eqb_eq].
Qed.

Lemma is_unique_NoDup (ks : list K) :
  is_unique key_eqb ks = true <-> NoDup ks.
Proof.
  induction ks as [ | k ks IH]; simpl.
  - split; [constructor | reflexivity].
  - rewrite andb_true_iff, negb_true_iff, IH, NoDup_cons_iff.
    rewrite <- not_true_iff_false, existsb_key_In. reflexivity.
Qed.

Lemma matching_nil (l : L) (right : list R) :
  ~ In (left_on l) (map right_on right) ->
  matching key_eqb left_on right_on l right = [].
Proof.
  unfold matching. induction right as [ | r right IH]; simpl; intros Hnot.
  - reflexivity.
  - destruct (key_eqb (left_on l) (right_on r)) eqn:E.
    + apply key_eqb_eq in E. exfalso. apply Hnot. now left.
    + apply IH. intros Hin. apply Hnot. now right.
Qed.

(** With unique right keys a left row has at most one partner: the first
    row of [right] carrying its key. *)
Lemma matching_find (l : L) (right : list R) :
  NoDup (map right_on right) ->
  matching key_eqb left_on right_on l right =
  match find (fun r => key_eqb (left_on l) (right_on r)) right with
  | Some r => [r]
  | None => []
  end.
Proof.
  induction right as [ | r right IH]; simpl; intros Hnd.
  - reflexivity.
  - apply NoDup_cons_iff in Hnd. destruct Hnd as [Hnot Hnd].
    unfold matching in *. simpl.
    destruct (key_eqb (left_on l) (right_on r)) eqn:E.
    + apply key_eqb_eq in E. f_equal.
      apply (matching_nil l right). now rewrite E.
    + now apply IH.
Qed.

Lemma inner_join_find (combine : L -> R -> O) (left : list L) (right : list R) :
  NoDup (map right_on right) ->
  inner_join key_eqb left_on right_on combine left right =
  flat_map (fun l =>
              match find (fun r => key_eqb (left_on l) (right_on r)) right with
              | Some r => [combine l r]
              | None => []
              end) left.
Proof.
  intros Hnd. unfold inner_join.
  induction left as [ | l left IH]; simpl.
  - reflexivity.
  - rewrite IH, (matching_find l right Hnd).
    destruct (find _ right); reflexivity.
Qed.

Lemma left_join_find (combine : L -> option R -> O)
    (left : list L) (right : list R) :
  NoDup (map right_on right) ->
  left_join key_eqb left_on right_on combine left right =
  map (fun l =>
         combine l (find (fun r => key_eqb (left_on l) (right_on r)) right))
      left.
Proof.
  intros Hnd. unfold left_join.
  rewrite (flat_map_ext _
             (fun l => [combine l (find (fun r => key_eqb (left_on l) (right_on r))
                                        right)])).
  - induction left as [ | l left IH]; simpl; congruence.
  - intros l. rewrite (matching_find l right Hnd).
    destruct (find _ right); reflexivity.
Qed.

(** The rows an inner join keeps: the left rows whose key occurs on the
    right, each once. *)
Lemma inner_join_keys (A : Type) (fO : O -> A) (fL : L -> A)
    (combine : L -> R -> O) (left : list L) (right : list R) :
  (forall l r, fO (combine l r) = fL l) ->
  NoDup (map right_on right) ->
  map fO (inner_join key_eqb left_on right_on combine left right) =
  map fL (filter (fun l => existsb (fun r => key_eqb (left_on l) (right_on r))
                                   right) left).
Proof.
  intros Hf Hnd. rewrite (inner_join_find combine left right Hnd).
  induction left as [ | l left IH]; simpl.
  - reflexivity.
  - destruct (find _ right) as [r | ] eqn:E.
    + apply find_some in E. destruct E as [Hin Hk].
      assert (Hex : existsb (fun r => key_eqb (left_on l) (right_on r)) right
                    = true) by (apply existsb_exists; eauto).
      rewrite Hex. simpl. now rewrite Hf, IH.
    + assert (Hex : existsb (fun r => key_eqb (left_on l) (right_on r)) right
                    = false).
      { apply not_true_iff_false. intros H. apply existsb_exists in H.
        destruct H as [r [Hin Hk]]. apply (find_none _ _ E) in Hin.
        congruence. }
      rewrite Hex. simpl. exact IH.
Qed.

(** A left join keeps every left row, once. *)
Lemma left_join_keys (A : Type) (fO : O -> A) (fL : L -> A)
    (combine : L -> option R -> O) (left : list L) (right : list R) :
  (forall l o, fO (combine l o) = fL l) ->
  NoDup (map right_on right) ->
  map fO (left_join key_eqb left_on right_on combine left right) = map fL left.
Proof.
  intros Hf Hnd. rewrite (left_join_find combine left right Hnd), map_map.
  apply map_ext. intros l. apply Hf.
Qed.

Lemma merge_1to1_Ok (join : list L -> list R -> list O)
    (left : list L) (right : list R) (out : list O) :
  merge_1to1 key_eqb left_on right_on join left right = Ok out <->
  NoDup (map left_on left) /\ NoDup (map right_on right) /\
  out = join left right.
Proof.
  unfold merge_1to1, validate_1to1.
  destruct (is_unique key_eqb (map left_on left)) eqn:El;
    destruct (is_unique key_eqb (map right_on right)) eqn:Er; simpl;
    try apply is_unique_NoDup in El; try apply is_unique_NoDup in Er.
  - split; [intros H; inversion H; auto | intros (_ & _ & ->); reflexivity].
  - split; [discriminate | intros (_ & Hr & _)].
    apply is_unique_NoDup in Hr. congruence.
  - split; [discriminate | intros (Hl & _ & _)].
    apply is_unique_NoDup in Hl. congruence.
  - split; [discriminate | intros (Hl & _ & _)].
    apply is_unique_NoDup in Hl. congruence.
Qed.

Lemma merge_1to1_MergeError (join : list L -> list R -> list O)
    (left : list L) (right : list R) :
  ~ NoDup (map left_on left) \/ ~ NoDup (map right_on right) ->
  merge_1to1 key_eqb left_on right_on join left right = MergeError.
Proof.
  intros H.
  destruct (merge_1to1 key_eqb left_on right_on join left right) as [out | ]
    eqn:E; [ | reflexivity].
  apply merge_1to1_Ok in E. tauto.
Qed.

End MergeFacts.

Lemma pair_eqb_eq (A : Type) (eqA : A -> A -> bool) :
  (forall a b, eqA a b = true <-> a = b) ->
  forall a b : A * Z, pair_eqb eqA a b = true <-> a = b.
Proof.
  intros HA [a1 a2] [b1 b2]. unfold pair_eqb. simpl.
  rewrite andb_true_iff, HA, Z.eqb_eq. split.
  - intros [-> ->]. reflexivity.
  - intros H. inversion H. auto.
Qed.

Lemma option_Z_eqb_eq (a b : option Z) : option_Z_eqb a b = true <-> a = b.
Proof.
  destruct a as [x | ], b as [y | ]; simpl;
    try (split; [discriminate | congruence]); try tauto.
  rewrite Z.eqb_eq. split; congruence.
Qed.

Lemma key_ZZ_eqb_eq (a b : Z * Z) : pair_eqb Z.eqb a b = true <-> a = b.
Proof. apply pair_eqb_eq. exact Z.eqb_eq. Qed.

Lemma key_gvkey_eqb_eq (a b : option Z * Z) :
  pair_eqb option_Z_eqb a b = true <-> a = b.
Proof. apply pair_eqb_eq. exact option_Z_eqb_eq. Qed.

(** ** Facts about the frame operations *)

Lemma insert_row_perm (r : Frame.row) (df : list Frame.row) :
  Permutation (r :: df) (insert_row r df).
Proof.
  induction df as [ | x df IH]; simpl.
  - apply Permutation_refl.
  - destruct (key_leb r x).
    + apply Permutation_refl.
    + apply perm_trans with (x :: r :: df).
      * apply perm_swap.
      * apply perm_skip. exact IH.
Qed.

Lemma sort_values_perm (df : list Frame.row) : Permutation df (sort_values df).
Proof.
  induction df as [ | r df IH]; simpl.
  - apply perm_nil.
  - apply perm_trans with (r :: sort_values df).
    + apply perm_skip. exact IH.
    + apply insert_row_perm.
Qed.

Lemma find_month_entry {A : Type} (g : Z -> A) (m : Z) (ms : list Z) :
  In m ms ->
  find (fun e => (m =? fst e)%Z) (map (fun m' => (m', g m')) ms) = Some (m, g m).
Proof.
  induction ms as [ | m' ms IH]; simpl; intros Hin.
  - contradiction.
  - destruct (m =? m')%Z eqn:E.
    + apply Z.eqb_eq in E. now subst.
    + destruct Hin as [-> | Hin]; [ | now apply IH].
      rewrite Z.eqb_refl in E. discriminate.
Qed.

Section StandardizeFacts.

Variables agg_mean agg_std : list float -> float.

(** The merge with [monthly_stats] gives every row the mean and the
    standard deviation of its own month, and keeps the rows as they are. *)
Lemma merge_stats_rows (df : list Frame.row) :
  merge_stats agg_mean agg_std df =
  map (fun r => (r, (cohort_mean agg_mean df r, cohort_std agg_std df r))) df.
Proof.
  unfold merge_stats.
  rewrite (left_join_find Z.eqb Z.eqb_eq).
  - apply map_ext_in. intros r Hin. unfold monthly_stats.
    rewrite (find_month_entry
               (fun m => (agg_mean (group_values df m),
                          agg_std (group_values df m)))).
    + reflexivity.
    + apply nodup_In. now apply in_map.
  - unfold monthly_stats. rewrite map_map. simpl. rewrite map_id.
    apply NoDup_nodup.
Qed.

(** The signal stage row by row: the keys of the sorted frame with the
    standardised value of the clipped raw factor. *)
Lemma signal_rows (frame : list Frame.row) :
  signal agg_mean agg_std frame =
  let df := sort_values frame in
  map (fun r =>
         Predictor.mk (Frame.permno r) (Frame.time_avail_m r)
           (standardize (ShortConviction_raw_clip df r)
                        (cohort_mean agg_mean df r) (cohort_std agg_std df r)))
      df.
Proof.
  unfold signal. simpl. rewrite merge_stats_rows, map_map. reflexivity.
Qed.

(** What a run that does not raise went through. *)
Lemma ShortConviction_Ok (signal_master : list SignalMaster.row)
    (monthly_crsp : list CRSP.row) (monthly_short : list ShortInterest.row)
    (out : list Predictor.row) :
  ShortConviction agg_mean agg_std signal_master monthly_crsp monthly_short
  = Ok out ->
  exists df frame,
    merge_crsp signal_master monthly_crsp = Ok df /\
    merge_short (filter gvkey_notna df) monthly_short = Ok frame /\
    out = signal agg_mean agg_std frame
          ++ map missing_signal (filter gvkey_isna df).
Proof.
  unfold ShortConviction, bind. intros H.
  destruct (merge_crsp signal_master monthly_crsp) as [df | ] eqn:E1;
    [ | discriminate].
  destruct (merge_short (filter gvkey_notna df) monthly_short) as [frame | ]
    eqn:E2; [ | discriminate].
  exists df, frame. injection H as <-. repeat split; assumption.
Qed.

End StandardizeFacts.

(** ** The rows that travel through the script *)

Lemma filter_partition_perm {A : Type} (f : A -> bool) (l : list A) :
  Permutation l (filter (fun a => negb (f a)) l ++ filter f l).
Proof.
  induction l as [ | a l IH]; simpl.
  - apply perm_nil.
  - destruct (f a); simpl.
    + apply Permutation_cons_app. exact IH.
    + apply perm_skip. exact IH.
Qed.

Lemma NoDup_map_inj_on {A B : Type} (f : A -> B) (l : list A) (a b : A) :
  NoDup (map f l) -> In a l -> In b l -> f a = f b -> a = b.
Proof.
  induction l as [ | x l IH]; simpl; intros Hnd Ha Hb Hf.
  - contradiction.
  - apply NoDup_cons_iff in Hnd. destruct Hnd as [Hx Hnd].
    destruct Ha as [-> | Ha], Hb as [-> | Hb]; auto.
    + exfalso. apply Hx. rewrite Hf. now apply in_map.
    + exfalso. apply Hx. rewrite <- Hf. now apply in_map.
Qed.

Lemma NoDup_map_filter {Row Key : Type} (key : Row -> Key)
    (keep : Row -> bool) (rows : list Row) (Hnd : NoDup (map key rows)) :
  NoDup (map key (filter keep rows)).
Proof.
  induction rows as [ | x rows IH]; simpl in *.
  - constructor.
  - apply NoDup_cons_iff in Hnd. destruct Hnd as [Hx Hnd].
    destruct (keep x); simpl; [ | now apply IH].
    constructor; [ | now apply IH].
    intros Hin. apply Hx. apply in_map_iff in Hin.
    destruct Hin as [y [Hy Hin]]. apply filter_In in Hin.
    rewrite <- Hy. apply in_map. tauto.
Qed.

Lemma merge_crsp_Ok (signal_master : list SignalMaster.row)
    (monthly_crsp : list CRSP.row) (df : list Joined.row) :
  merge_crsp signal_master monthly_crsp = Ok df ->
  NoDup (map master_key signal_master) /\
  NoDup (map crsp_key monthly_crsp) /\
  map joined_key df =
  map master_key (filter (in_crsp monthly_crsp) signal_master).
Proof.
  unfold merge_crsp. intros H.
  apply (merge_1to1_Ok _ key_ZZ_eqb_eq) in H.
  destruct H as (Hl & Hr & ->). repeat split; try assumption.
  apply (inner_join_keys _ key_ZZ_eqb_eq); [reflexivity | assumption].
Qed.

Lemma merge_short_Ok (df : list Joined.row)
    (monthly_short : list ShortInterest.row) (frame : list Frame.row) :
  merge_short df monthly_short = Ok frame ->
  map frame_key frame = map joined_key df /\
  map Frame.gvkey frame = map Joined.gvkey df.
Proof.
  unfold merge_short. intros H.
  apply (merge_1to1_Ok _ key_gvkey_eqb_eq) in H.
  destruct H as (Hl & Hr & ->).
  split; apply (left_join_keys _ key_gvkey_eqb_eq);
    try assumption; reflexivity.
Qed.

Lemma signal_keys (agg_mean agg_std : list float -> float)
    (frame : list Frame.row) :
  map predictor_key (signal agg_mean agg_std frame) =
  map frame_key (sort_values frame).
Proof.
  rewrite signal_rows. simpl. rewrite map_map. reflexivity.
Qed.

(** The keys of the output are those of the first merge, reordered. *)
Lemma output_keys (agg_mean agg_std : list float -> float)
    (signal_master : list SignalMaster.row) (monthly_crsp : list CRSP.row)
    (monthly_short : list ShortInterest.row) (out : list Predictor.row) :
  ShortConviction agg_mean agg_std signal_master monthly_crsp monthly_short
  = Ok out ->
  NoDup (map master_key signal_master) /\
  Permutation (map predictor_key out)
    (map master_key (filter (in_crsp monthly_crsp) signal_master)).
Proof.
  intros H. apply ShortConviction_Ok in H.
  destruct H as (df & frame & H1 & H2 & ->).
  apply merge_crsp_Ok in H1. destruct H1 as (Hl & _ & Hkeys).
  apply merge_short_Ok in H2. destruct H2 as (Hframe & _).
  split; [assumption | ].
  rewrite <- Hkeys, map_app, signal_keys, map_map.
  change (fun x => predictor_key (missing_signal x)) with joined_key.
  apply perm_trans
    with (map joined_key (filter gvkey_notna df)
          ++ map joined_key (filter gvkey_isna df)).
  - apply Permutation_app_tail. rewrite <- Hframe.
    apply Permutation_map, Permutation_sym, sort_values_perm.
  - rewrite <- map_app. apply Permutation_map, Permutation_sym.
    apply (filter_partition_perm gvkey_isna).
Qed.

Lemma frame_gvkey_valid (df : list Joined.row)
    (monthly_short : list ShortInterest.row) (frame : list Frame.row) :
  merge_short (filter gvkey_notna df) monthly_short = Ok frame ->
  Forall (fun r => Frame.gvkey r <> None) frame.
Proof.
  intros H. apply merge_short_Ok in H. destruct H as [_ Hg].
  apply Forall_forall. intros r Hin.
  apply (in_map Frame.gvkey) in Hin. rewrite Hg in Hin.
  apply in_map_iff in Hin. destruct Hin as [j [Hj Hin]].
  apply filter_In in Hin. destruct Hin as [_ Hn]. rewrite <- Hj.
  unfold gvkey_notna, gvkey_isna in Hn.
  destruct (Joined.gvkey j); discriminate.
Qed.

(** ** The joins and the rows of the output *)

Section Joiner.

Variables agg_mean agg_std : list float -> float.

(** C6: both merges are validated one-to-one.  A key that repeats on either
    side of the inner merge on [(permno, time_avail_m)] makes the script
    raise [MergeError]; when that merge passes, a key that repeats on either
    side of the left merge on [(gvkey, time_avail_m)] (on the left, among
    the rows with a valid [gvkey]) makes it raise [MergeError] as well: no
    frame is produced, fanned out or otherwise. *)
Theorem duplicate_keys_raise (signal_master : list SignalMaster.row)
    (monthly_crsp : list CRSP.row) (monthly_short : list ShortInterest.row) :
  (~ NoDup (map master_key signal_master) \/
   ~ NoDup (map crsp_key monthly_crsp) ->
   ShortConviction agg_mean agg_std signal_master monthly_crsp
     monthly_short = MergeError) /\
  (forall df,
     merge_crsp signal_master monthly_crsp = Ok df ->
     ~ NoDup (map joined_gvkey_key (filter gvkey_notna df)) \/
     ~ NoDup (map short_key monthly_short) ->
     ShortConviction agg_mean agg_std signal_master monthly_crsp
       monthly_short = MergeError).
Proof.
  split.
  - intros H. unfold ShortConviction, merge_crsp.
    rewrite (merge_1to1_MergeError _ key_ZZ_eqb_eq); [reflexivity | exact H].
  - intros df Hdf H. unfold ShortConviction. rewrite Hdf. simpl.
    unfold merge_short.
    rewrite (merge_1to1_MergeError _ key_gvkey_eqb_eq); [reflexivity | exact H].
Qed.

(** C7: a row of the first merge whose [gvkey] is null is in the output, with
    a null signal, and it is the only output row with its key.  Such rows
    take no part in what comes between: the frame that is merged with the
    short interest, lagged and standardised holds rows with a valid [gvkey]
    only, and the output is the signal of that frame followed by the null
    rows. *)
Theorem missing_gvkey_preserved (signal_master : list SignalMaster.row)
    (monthly_crsp : list CRSP.row) (monthly_short : list ShortInterest.row)
    (out : list Predictor.row) :
  ShortConviction agg_mean agg_std signal_master monthly_crsp
    monthly_short = Ok out ->
  exists df frame,
    merge_crsp signal_master monthly_crsp = Ok df /\
    merge_short (filter gvkey_notna df) monthly_short = Ok frame /\
    Forall (fun r => Frame.gvkey r <> None) frame /\
    out = signal agg_mean agg_std frame
          ++ map missing_signal (filter gvkey_isna df) /\
    forall r, In r df -> Joined.gvkey r = None ->
      In (Predictor.mk (Joined.permno r) (Joined.time_avail_m r) nan) out /\
      forall o, In o out -> predictor_key o = joined_key r ->
                Predictor.ShortConviction o = nan.
Proof.
  intros H. pose proof (output_keys _ _ _ _ _ _ H) as [Hnd Hperm].
  apply ShortConviction_Ok in H. destruct H as (df & frame & H1 & H2 & Hout).
  exists df, frame.
  split; [exact H1 | ]. split; [exact H2 | ]. split; [ | split; [exact Hout | ]].
  - exact (frame_gvkey_valid _ _ _ H2).
  - intros r Hin Hnull.
    assert (Hr : In (missing_signal r) out).
    { subst out. apply in_or_app. right. apply in_map. apply filter_In.
      split; [assumption | ]. unfold gvkey_isna. now rewrite Hnull. }
    split; [exact Hr | ].
    intros o Ho Hk.
    assert (Hnd' : NoDup (map predictor_key out)).
    { apply (Permutation_NoDup (Permutation_sym Hperm)).
      now apply NoDup_map_filter. }
    rewrite (NoDup_map_inj_on predictor_key out o (missing_signal r)
               Hnd' Ho Hr Hk).
    reflexivity.
Qed.

(** C8: when the script does not raise, the keys of its output are the keys
    of the master rows that have a partner in [monthly_crsp], each once: as
    many rows, none gained, none lost, no key twice. *)
Theorem row_count_preserved (signal_master : list SignalMaster.row)
    (monthly_crsp : list CRSP.row) (monthly_short : list ShortInterest.row)
    (out : list Predictor.row) :
  ShortConviction agg_mean agg_std signal_master monthly_crsp
    monthly_short = Ok out ->
  length out = length (filter (in_crsp monthly_crsp) signal_master) /\
  Permutation (map predictor_key out)
    (map master_key (filter (in_crsp monthly_crsp) signal_master)) /\
  NoDup (map predictor_key out).
Proof.
  intros H. apply output_keys in H. destruct H as [Hnd Hperm].
  repeat split.
  - apply Permutation_length in Hperm. now rewrite !length_map in Hperm.
  - exact Hperm.
  - apply (Permutation_NoDup (Permutation_sym Hperm)).
    now apply NoDup_map_filter.
Qed.

(** C10: a master row whose key [(permno, time_avail_m)] has no partner in
    [monthly_crsp] has no row in the output: the inner merge drops it and
    nothing brings it back.  An output strictly shorter than the master
    table therefore occurs. *)
Theorem unmatched_master_rows_dropped :
  (forall signal_master monthly_crsp monthly_short out l,
      ShortConviction agg_mean agg_std signal_master monthly_crsp
        monthly_short = Ok out ->
      In l signal_master ->
      in_crsp monthly_crsp l = false ->
      ~ In (master_key l) (map predictor_key out)) /\
  (exists signal_master monthly_crsp monthly_short out,
      ShortConviction agg_mean agg_std signal_master monthly_crsp
        monthly_short = Ok out /\
      length out < length signal_master).
Proof.
  split.
  - intros signal_master monthly_crsp monthly_short out l H Hl Hc Hin.
    apply output_keys in H. destruct H as [_ Hperm].
    apply (Permutation_in _ Hperm) in Hin.
    apply in_map_iff in Hin. destruct Hin as [l' [Hk Hin]].
    apply filter_In in Hin. destruct Hin as [_ Hc'].
    unfold in_crsp in *. rewrite Hk in Hc'. congruence.
  - exists [SignalMaster.mk 5 (Some 50%Z) 3 0.25%float], [], [], [].
    split; [reflexivity | simpl; lia].
Qed.

End Joiner.

Lemma sample_run :
  ShortConviction mean std Sample.signal_master Sample.monthly_crsp
    Sample.monthly_short = Ok Sample.output.
Proof. vm_compute. reflexivity. Defined.

Lemma duplicate_keys_raise_witness :
  (~ NoDup (map master_key Sample.signal_master_repeated) /\
   ShortConviction mean std Sample.signal_master_repeated Sample.monthly_crsp
     Sample.monthly_short = MergeError) /\
  (exists df,
     merge_crsp Sample.signal_master_shared_gvkey
       Sample.monthly_crsp_shared_gvkey = Ok df /\
     ~ NoDup (map joined_gvkey_key (filter gvkey_notna df)) /\
     ShortConviction mean std Sample.signal_master_shared_gvkey
       Sample.monthly_crsp_shared_gvkey Sample.monthly_short = MergeError).
Proof.
  assert (H1 : ~ NoDup (map master_key Sample.signal_master_repeated)).
  { intros H. apply (is_unique_NoDup _ key_ZZ_eqb_eq) in H. discriminate H. }
  split.
  - split; [exact H1 | ].
    apply (proj1 (duplicate_keys_raise mean std Sample.signal_master_repeated
                    Sample.monthly_crsp Sample.monthly_short)).
    left. exact H1.
  - exists [ Joined.mk 1 (Some 10%Z) 3 0.125%float 128%float;
             Joined.mk 6 (Some 10%Z) 3 0.25%float 64%float ].
    assert (H2 : ~ NoDup (map joined_gvkey_key
                            (filter gvkey_notna
                               [ Joined.mk 1 (Some 10%Z) 3 0.125%float 128%float;
                                 Joined.mk 6 (Some 10%Z) 3 0.25%float
                                   64%float ]))).
    { intros H. apply (is_unique_NoDup _ key_gvkey_eqb_eq) in H.
      discriminate H. }
    split; [reflexivity | ]. split; [exact H2 | ].
    apply (proj2 (duplicate_keys_raise mean std
                    Sample.signal_master_shared_gvkey
                    Sample.monthly_crsp_shared_gvkey Sample.monthly_short)
                 _ eq_refl).
    left. exact H2.
Defined.

Lemma missing_gvkey_preserved_witness :
  ShortConviction mean std Sample.signal_master Sample.monthly_crsp
    Sample.monthly_short = Ok Sample.output /\
  exists df frame,
    merge_crsp Sample.signal_master Sample.monthly_crsp = Ok df /\
    merge_short (filter gvkey_notna df) Sample.monthly_short = Ok frame /\
    Forall (fun r => Frame.gvkey r <> None) frame /\
    Sample.output = signal mean std frame
                    ++ map missing_signal (filter gvkey_isna df) /\
    forall r, In r df -> Joined.gvkey r = None ->
      In (Predictor.mk (Joined.permno r) (Joined.time_avail_m r) nan)
         Sample.output /\
      forall o, In o Sample.output -> predictor_key o = joined_key r ->
                Predictor.ShortConviction o = nan.
Proof.
  split; [exact sample_run | ].
  exact (missing_gvkey_preserved mean std Sample.signal_master
           Sample.monthly_crsp Sample.monthly_short Sample.output sample_run).
Defined.

Lemma row_count_preserved_witness :
  ShortConviction mean std Sample.signal_master Sample.monthly_crsp
    Sample.monthly_short = Ok Sample.output /\
  length Sample.output
  = length (filter (in_crsp Sample.monthly_crsp) Sample.signal_master) /\
  Permutation (map predictor_key Sample.output)
    (map master_key (filter (in_crsp Sample.monthly_crsp)
                            Sample.signal_master)) /\
  NoDup (map predictor_key Sample.output).
Proof.
  split; [exact sample_run | ].
  exact (row_count_preserved mean std Sample.signal_master
           Sample.monthly_crsp Sample.monthly_short Sample.output sample_run).
Defined.

Lemma unmatched_master_rows_dropped_witness :
  In (SignalMaster.mk 5 (Some 50%Z) 3 0.25%float) Sample.signal_master /\
  in_crsp Sample.monthly_crsp (SignalMaster.mk 5 (Some 50%Z) 3 0.25%float)
  = false /\
  ~ In (5%Z, 3%Z) (map predictor_key Sample.output).
Proof.
  split; [simpl; tauto | ]. split; [reflexivity | ].
  apply (proj1 (unmatched_master_rows_dropped mean std)
               Sample.signal_master Sample.monthly_crsp Sample.monthly_short
               Sample.output (SignalMaster.mk 5 (Some 50%Z) 3 0.25%float)
               sample_run).
  - simpl. tauto.
  - reflexivity.
Defined.

(** ** The raw factor, the clip and the standardisation *)

Section Transformer.

Import F64.
Local Open Scope float_scope.

(** C5: the clip of line 115.  A null raw factor stays as it is, and a raw
    factor is null after the clip exactly when it was before (no value is
    dropped); a non-null one lies in [[-3, 3]] afterwards: unchanged when it
    was inside, [-3] when it was below, [3] when it was above.  The values
    the monthly mean and standard deviation are taken over are these clipped
    values, all within [[-3, 3]]. *)
Theorem raw_factor_clipped (df : list Frame.row) (r : Frame.row) :
  (isna (ShortConviction_raw df r) = true ->
   ShortConviction_raw_clip df r = ShortConviction_raw df r) /\
  isna (ShortConviction_raw_clip df r) = isna (ShortConviction_raw df r) /\
  (isna (ShortConviction_raw df r) = false ->
   (-3 <=? ShortConviction_raw_clip df r) = true /\
   (ShortConviction_raw_clip df r <=? 3) = true) /\
  ((ShortConviction_raw df r <? -3) = true ->
   ShortConviction_raw_clip df r = -3) /\
  ((3 <? ShortConviction_raw df r) = true ->
   ShortConviction_raw_clip df r = 3) /\
  ((-3 <=? ShortConviction_raw df r) = true ->
   (ShortConviction_raw df r <=? 3) = true ->
   ShortConviction_raw_clip df r = ShortConviction_raw df r) /\
  (forall m,
     Forall (fun v => (-3 <=? v) = true /\ (v <=? 3) = true)
            (group_values df m)).
Proof.
  unfold ShortConviction_raw_clip.
  split; [apply clip_isna | ].
  split; [apply clip_is_nan | ].
  split; [apply clip_bounds | ].
  split; [apply clip_below | ].
  split; [apply clip_above | ].
  split; [apply clip_inside | ].
  intros m. apply Forall_forall. intros v Hv.
  unfold group_values in Hv. apply filter_In in Hv. destruct Hv as [Hin Hnn].
  apply in_map_iff in Hin. destruct Hin as [r' [<- _]].
  apply clip_bounds. unfold notna, ShortConviction_raw_clip in Hnn.
  rewrite clip_is_nan in Hnn. unfold isna. now apply negb_true_iff.
Qed.

(** C4, as the code has it.  The percentage change of the short-interest
    ratio is null exactly when the ratio is null, or its lag is null or
    infinite, or both are zero (0/0); that null goes on to the raw factor,
    through the clip, and to the standardised value, whatever the monthly
    statistics are.  A zero lag under a ratio that is a number other than
    zero gives an infinite change, which is not null. *)
Theorem pct_change_null_propagates (df : list Frame.row) (r : Frame.row) :
  isna (SI_pct_change df r)
  = isna (SI_ratio r) || isna (SI_ratio_lag2 df r)
    || is_infinity (SI_ratio_lag2 df r)
    || (is_zero (SI_ratio r) && is_zero (SI_ratio_lag2 df r)) /\
  (isna (SI_pct_change df r) = true ->
   isna (ShortConviction_raw df r) = true /\
   isna (ShortConviction_raw_clip df r) = true /\
   forall mean std,
     standardize (ShortConviction_raw_clip df r) mean std = nan) /\
  (is_zero (SI_ratio_lag2 df r) = true ->
   isna (SI_ratio r) = false -> is_zero (SI_ratio r) = false ->
   is_infinity (SI_pct_change df r) = true /\
   isna (SI_pct_change df r) = false).
Proof.
  split; [apply is_nan_pct | split].
  - intros H.
    assert (Hraw : isna (ShortConviction_raw df r) = true).
    { unfold ShortConviction_raw, isna. apply is_nan_mul_l.
      now rewrite is_nan_opp. }
    assert (Hclip : isna (ShortConviction_raw_clip df r) = true).
    { unfold ShortConviction_raw_clip, isna. now rewrite clip_is_nan. }
    repeat split; try assumption.
    intros mean std. unfold standardize, notna. unfold isna in Hclip.
    rewrite Hclip, andb_false_r. reflexivity.
  - intros Hz Hn Hnz. split.
    + now apply is_infinity_pct_zero.
    + unfold isna in *. unfold SI_pct_change. rewrite is_nan_pct, Hn, Hnz.
      rewrite is_zero_class, is_nan_class, is_infinity_class in *.
      destruct (Prim2SF (SI_ratio_lag2 df r)); simpl in *; congruence.
Qed.

End Transformer.

(** C5 on the small run, month 3: the raw factor of security 1 is minus
    infinity and is clipped to -3, that of security 2 lies inside and stays,
    that of security 3 is null and stays null. *)
Lemma raw_factor_clipped_witness :
  ((ShortConviction_raw Sample.df Sample.row_1_3 <? -3)%float = true /\
   ShortConviction_raw_clip Sample.df Sample.row_1_3 = (-3)%float) /\
  (isna (ShortConviction_raw Sample.df Sample.row_2_3) = false /\
   (-3 <=? ShortConviction_raw_clip Sample.df Sample.row_2_3)%float = true /\
   (ShortConviction_raw_clip Sample.df Sample.row_2_3 <=? 3)%float = true) /\
  (isna (ShortConviction_raw Sample.df Sample.row_3_3) = true /\
   ShortConviction_raw_clip Sample.df Sample.row_3_3
   = ShortConviction_raw Sample.df Sample.row_3_3).
Proof.
  assert (H1 : (ShortConviction_raw Sample.df Sample.row_1_3 <? -3)%float
               = true) by (vm_compute; reflexivity).
  assert (H2 : isna (ShortConviction_raw Sample.df Sample.row_2_3) = false)
    by (vm_compute; reflexivity).
  assert (H3 : isna (ShortConviction_raw Sample.df Sample.row_3_3) = true)
    by (vm_compute; reflexivity).
  split; [ | split].
  - split; [exact H1 | ].
    exact (proj1 (proj2 (proj2 (proj2
             (raw_factor_clipped Sample.df Sample.row_1_3)))) H1).
  - split; [exact H2 | ].
    exact (proj1 (proj2 (proj2
             (raw_factor_clipped Sample.df Sample.row_2_3))) H2).
  - split; [exact H3 | ].
    exact (proj1 (raw_factor_clipped Sample.df Sample.row_3_3) H3).
Defined.

(** C4 on the small run: security 3 has no short interest in month 3, and
    the ratio of security 1 two months before month 3 is zero. *)
Lemma pct_change_null_propagates_witness :
  (isna (SI_pct_change Sample.df Sample.row_3_3) = true /\
   isna (ShortConviction_raw Sample.df Sample.row_3_3) = true /\
   isna (ShortConviction_raw_clip Sample.df Sample.row_3_3) = true /\
   forall mean std,
     standardize (ShortConviction_raw_clip Sample.df Sample.row_3_3) mean std
     = nan) /\
  (is_zero (SI_ratio_lag2 Sample.df Sample.row_1_3) = true /\
   isna (SI_ratio Sample.row_1_3) = false /\
   is_zero (SI_ratio Sample.row_1_3) = false /\
   is_infinity (SI_pct_change Sample.df Sample.row_1_3) = true /\
   isna (SI_pct_change Sample.df Sample.row_1_3) = false).
Proof.
  assert (H : isna (SI_pct_change Sample.df Sample.row_3_3) = true)
    by (vm_compute; reflexivity).
  assert (Hz : is_zero (SI_ratio_lag2 Sample.df Sample.row_1_3) = true)
    by (vm_compute; reflexivity).
  assert (Hn : isna (SI_ratio Sample.row_1_3) = false)
    by (vm_compute; reflexivity).
  assert (Hnz : is_zero (SI_ratio Sample.row_1_3) = false)
    by (vm_compute; reflexivity).
  split.
  - split; [exact H | ].
    exact (proj1 (proj2 (pct_change_null_propagates Sample.df Sample.row_3_3))
                 H).
  - split; [exact Hz | ]. split; [exact Hn | ]. split; [exact Hnz | ].
    exact (proj2 (proj2 (pct_change_null_propagates Sample.df Sample.row_1_3))
                 Hz Hn Hnz).
Defined.

(** C4 as the spec states it fails on the small run: two months before
    month 3 the short-interest ratio of security 1 was zero, the percentage
    change is plus infinity, not null, and the record comes out with a
    number. *)
Lemma zero_lag_is_not_null :
  In Sample.row_1_3 Sample.df /\
  SI_ratio_lag2 Sample.df Sample.row_1_3 = 0%float /\
  SI_pct_change Sample.df Sample.row_1_3 = infinity /\
  isna (SI_pct_change Sample.df Sample.row_1_3) = false /\
  ShortConviction_raw_clip Sample.df Sample.row_1_3 = (-3)%float /\
  exists v, In (Predictor.mk 1 3 v) Sample.output /\ isna v = false.
Proof.
  split; [vm_compute; do 2 right; left; reflexivity | ].
  repeat (split; [vm_compute; reflexivity | ]).
  eexists. split.
  - vm_compute. right. right. left. reflexivity.
  - vm_compute. reflexivity.
Qed.

(** ** The standardised factor of every output record *)

Section MonthlyScore.

Import F64.
Local Open Scope float_scope.

(** Fewer than two values have no standard deviation ([nobs <= ddof]). *)
Lemma std_small (xs : list float) : (length xs < 2)%nat -> std xs = nan.
Proof.
  destruct xs as [ | x [ | y xs]]; simpl; intros H; try lia.
  - reflexivity.
  - unfold std. cbn [fold_left]. unfold GroupVar.step.
    destruct (isna x); reflexivity.
Qed.

(** A standard deviation that is zero or null is not above zero. *)
Lemma std_zero_or_null (sd : float) :
  is_zero sd = true \/ isna sd = true -> (0 <? sd) = false.
Proof.
  intros H. destruct (0 <? sd) eqn:E; [ | reflexivity].
  pose proof (zero_ltb_not_zero _ E) as Hz.
  pose proof (ltb_not_nan_r _ _ E) as Hn.
  unfold isna in H. destruct H as [H | H]; congruence.
Qed.

(** C2: when the script does not raise, every record of the frame with a
    valid [gvkey] comes out with [standardize raw mean std], where [raw] is
    its clipped raw factor and [mean], [std] are pandas' mean and standard
    deviation of [cohort r]: the non-null clipped raw factors of the rows
    of the frame that have the month of [r].  That value is
    [(raw - mean) / std] when [std > 0] and [raw] is not null, and null in
    every other case, among them a [std] that is zero or null, as that of
    fewer than two values is.  The records without [gvkey] come out
    null. *)
Theorem standardized_by_month (signal_master : list SignalMaster.row)
    (monthly_crsp : list CRSP.row) (monthly_short : list ShortInterest.row)
    (out : list Predictor.row) :
  ShortConviction mean std signal_master monthly_crsp monthly_short = Ok out ->
  exists joined frame,
    merge_crsp signal_master monthly_crsp = Ok joined /\
    merge_short (filter gvkey_notna joined) monthly_short = Ok frame /\
    let df := sort_values frame in
    let raw := ShortConviction_raw_clip df in
    let cohort (r : Frame.row) :=
      filter notna
        (map raw
             (filter (fun r' =>
                        (Frame.time_avail_m r' =? Frame.time_avail_m r)%Z)
                     df)) in
    out =
    map (fun r =>
           Predictor.mk (Frame.permno r) (Frame.time_avail_m r)
             (standardize (raw r) (mean (cohort r)) (std (cohort r))))
        df
    ++ map (fun j => Predictor.mk (Joined.permno j) (Joined.time_avail_m j) nan)
           (filter gvkey_isna joined) /\
    (forall x mu sd,
       (0 <? sd) = true -> isna x = false ->
       standardize x mu sd = (x - mu) / sd) /\
    (forall x mu sd,
       (0 <? sd) = false \/ isna x = true -> standardize x mu sd = nan) /\
    (forall sd, is_zero sd = true \/ isna sd = true -> (0 <? sd) = false) /\
    (forall xs, (length xs < 2)%nat -> std xs = nan).
Proof.
  intros H. apply ShortConviction_Ok in H.
  destruct H as (joined & frame & H1 & H2 & ->).
  exists joined, frame.
  split; [exact H1 | ]. split; [exact H2 | ]. cbv zeta.
  split; [ | split; [ | split; [ | split]]].
  - rewrite signal_rows. reflexivity.
  - intros x mu sd Hsd Hx. unfold standardize, notna.
    unfold isna in Hx. now rewrite Hsd, Hx.
  - intros x mu sd [Hsd | Hx]; unfold standardize, notna.
    + now rewrite Hsd.
    + unfold isna in Hx. now rewrite Hx, andb_false_r.
  - exact std_zero_or_null.
  - exact std_small.
Qed.

End MonthlyScore.

Section Standardizer.

Variables agg_mean agg_std : list float -> float.

Import F64.
Local Open Scope float_scope.



End Standardizer.

(** ** The exact mean and standard deviation *)

Section ExactFacts.

Local Open Scope R_scope.

Lemma sum_cons (x : R) (xs : list R) : Exact.sum (x :: xs) = x + Exact.sum xs.
Proof. reflexivity. Qed.

Lemma count_cons (x : R) (xs : list R) :
  Exact.count (x :: xs) = Exact.count xs + 1.
Proof. unfold Exact.count. simpl length. apply S_INR. Qed.




End ExactFacts.


(** ** The real value of a float *)

(** The value of a float with a negative exponent, as a quotient of
    integers. *)
Lemma to_R_quotient (x : float) (s : bool) (m p : positive) :
  Prim2SF x = S754_finite s m (Zneg p) ->
  to_R x = (IZR (cond_Zopp s (Zpos m)) / IZR (Z.pow_pos 2 p))%R.
Proof.
  intros E. unfold to_R. rewrite E. cbn [SF2R powerRZ].
  rewrite pow_IZR, positive_nat_Z. reflexivity.
Qed.


Lemma to_R_zero_class (x : float) (s : bool) :
  Prim2SF x = S754_zero s -> to_R x = 0%R.
Proof. intros E. unfold to_R. now rewrite E. Qed.


(** Evaluates the closed floats under [to_R] in the goal. *)
Ltac to_R_eval :=
  repeat match goal with
  | |- context [to_R ?t] =>
    let v := eval vm_compute in (Prim2SF t) in
    lazymatch v with
    | S754_zero ?s =>
      rewrite (to_R_zero_class t s ltac:(vm_compute; reflexivity))
    | S754_finite ?s ?m (Zneg ?p) =>
      let q := eval vm_compute in (Z.pow_pos 2 p) in
      let n := eval vm_compute in (cond_Zopp s (Zpos m)) in
      rewrite (to_R_quotient t s m p ltac:(vm_compute; reflexivity));
      change (Z.pow_pos 2 p) with q;
      change (cond_Zopp s (Zpos m)) with n
    end
  end.


Section ScoreFacts.

Import F64.
Local Open Scope float_scope.

Lemma is_finite_class (x : float) :
  is_finite x = negb (SFis_nan (Prim2SF x) || SFis_infinity (Prim2SF x)).
Proof. unfold is_finite. now rewrite is_nan_class, is_infinity_class. Qed.

Lemma is_finite_not_nan (x : float) : is_finite x = true -> is_nan x = false.
Proof.
  unfold is_finite. destruct (is_nan x); [discriminate | reflexivity].
Qed.



End ScoreFacts.

(** ** pandas' kernels in a run without rounding *)

Section KernelFacts.

Local Open Scope R_scope.

Lemma sum_app (xs ys : list R) :
  Exact.sum (xs ++ ys) = Exact.sum xs + Exact.sum ys.
Proof.
  induction xs as [ | x xs IH].
  - change (Exact.sum []) with 0. simpl app. lra.
  - simpl app. rewrite !sum_cons, IH. lra.
Qed.

Lemma sum_deviations (c : R) (xs : list R) :
  Exact.sum (map (fun y => (y - c) * (y - c)) xs)
  = sumsq xs - 2 * c * Exact.sum xs + Exact.count xs * (c * c).
Proof.
  unfold sumsq. induction xs as [ | x xs IH].
  - unfold Exact.count. simpl. lra.
  - rewrite !map_cons, !sum_cons, count_cons, IH. ring.
Qed.


Lemma count_IZR (xs : list R) : Exact.count xs = IZR (Z.of_nat (length xs)).
Proof. unfold Exact.count. apply INR_IZR_INZ. Qed.

Lemma is_finite_notna (x : float) : is_finite x = true -> isna x = false.
Proof. apply is_finite_not_nan. Qed.

(** The accumulators of [group_mean] after the numbers [ps], when no update
    was rounded: their count, their sum, and no compensation. *)
Lemma mean_steps_sum (xs ps : list float) (st : GroupMean.state) :
  GroupMean.nobs st = Z.of_nat (length ps) ->
  to_R (GroupMean.sumx st) = Exact.sum (map to_R ps) ->
  to_R (GroupMean.compensation st) = 0 ->
  mean_steps_exact st xs ->
  let st' := fold_left GroupMean.step xs st in
  GroupMean.nobs st' = Z.of_nat (length (ps ++ xs)) /\
  to_R (GroupMean.sumx st') = Exact.sum (map to_R (ps ++ xs)).
Proof.
  revert ps st. induction xs as [ | x xs IH]; intros ps st Hn Hs Hc Hex.
  - cbn [fold_left]. rewrite app_nil_r. split; assumption.
  - cbn [fold_left mean_steps_exact] in *.
    destruct Hex as (Hx & [_ Hs'] & [_ Hc'] & Hex).
    replace (ps ++ x :: xs) with ((ps ++ [x]) ++ xs)
      by (now rewrite <- app_assoc).
    apply IH; try assumption.
    + unfold GroupMean.step. rewrite (is_finite_notna x Hx).
      cbn [GroupMean.nobs]. rewrite Hn, length_app. simpl length. lia.
    + rewrite Hs', Hs, Hc, map_app, sum_app. cbn [map].
      rewrite sum_cons. change (Exact.sum []) with 0. lra.
    + rewrite Hc', Hs'. lra.
Qed.

(** The accumulators of [group_var] after the numbers [ps], when no update
    was rounded: their count, their mean and their summed squared
    deviations from it. *)
Lemma var_steps_moments (xs ps : list float) (st : GroupVar.state) :
  GroupVar.nobs st = Z.of_nat (length ps) ->
  to_R (GroupVar.mean st) * Exact.count (map to_R ps)
  = Exact.sum (map to_R ps) ->
  to_R (GroupVar.out st) * Exact.count (map to_R ps)
  = sumsq (map to_R ps) * Exact.count (map to_R ps)
    - Exact.sum (map to_R ps) * Exact.sum (map to_R ps) ->
  (ps = [] -> to_R (GroupVar.mean st) = 0 /\ to_R (GroupVar.out st) = 0) ->
  var_steps_exact st xs ->
  let st' := fold_left GroupVar.step xs st in
  GroupVar.nobs st' = Z.of_nat (length (ps ++ xs)) /\
  to_R (GroupVar.mean st') * Exact.count (map to_R (ps ++ xs))
  = Exact.sum (map to_R (ps ++ xs)) /\
  to_R (GroupVar.out st') * Exact.count (map to_R (ps ++ xs))
  = sumsq (map to_R (ps ++ xs)) * Exact.count (map to_R (ps ++ xs))
    - Exact.sum (map to_R (ps ++ xs)) * Exact.sum (map to_R (ps ++ xs)).
Proof.
  revert ps st. induction xs as [ | x xs IH]; intros ps st Hn Hm Ho H0 Hex.
  - cbn [fold_left]. rewrite app_nil_r. repeat split; assumption.
  - cbn [fold_left var_steps_exact] in *.
    destruct Hex as (Hx & [_ Hm'] & [_ Ho'] & Hex).
    replace (ps ++ x :: xs) with ((ps ++ [x]) ++ xs)
      by (now rewrite <- app_assoc).
    assert (Hn' : GroupVar.nobs (GroupVar.step st x)
                  = Z.of_nat (length (ps ++ [x]))).
    { unfold GroupVar.step. rewrite (is_finite_notna x Hx).
      cbn [GroupVar.nobs]. rewrite Hn, length_app. simpl length. lia. }
    rewrite Hn' in Hm'.
    assert (Hk : Exact.count (map to_R (ps ++ [x]))
                 = Exact.count (map to_R ps) + 1).
    { unfold Exact.count. rewrite !length_map, length_app. simpl length.
      rewrite Nat.add_1_r. apply S_INR. }
    assert (Hk' : IZR (Z.of_nat (length (ps ++ [x])))
                  = Exact.count (map to_R ps) + 1).
    { rewrite <- Hk, count_IZR, length_map. reflexivity. }
    rewrite Hk' in Hm'.
    assert (Hpos : 0 <= Exact.count (map to_R ps))
      by (unfold Exact.count; apply pos_INR).
    set (k := Exact.count (map to_R ps)) in *.
    set (S := Exact.sum (map to_R ps)) in *.
    set (Q := sumsq (map to_R ps)) in *.
    set (mu := to_R (GroupVar.mean st)) in *.
    set (o := to_R (GroupVar.out st)) in *.
    set (mu' := to_R (GroupVar.mean (GroupVar.step st x))) in *.
    set (o' := to_R (GroupVar.out (GroupVar.step st x))) in *.
    assert (HS : Exact.sum (map to_R (ps ++ [x])) = S + to_R x).
    { rewrite map_app, sum_app. cbn [map]. rewrite sum_cons.
      change (Exact.sum []) with 0. fold S. lra. }
    assert (HQ : sumsq (map to_R (ps ++ [x])) = Q + to_R x * to_R x).
    { unfold sumsq. rewrite !map_app, sum_app. cbn [map]. rewrite sum_cons.
      change (Exact.sum []) with 0. fold (sumsq (map to_R ps)). fold Q. lra. }
    assert (Hmu' : mu' * (k + 1) = S + to_R x).
    { rewrite Hm'. field_simplify; [ | lra].
      destruct ps as [ | p ps].
      - destruct (H0 eq_refl) as [E1 E2]. unfold k, S, Exact.count in *.
        simpl in *. fold mu in E1. rewrite E1. lra.
      - nra. }
    assert (Ho2 : o' * (k + 1)
                  = (Q + to_R x * to_R x) * (k + 1)
                    - (S + to_R x) * (S + to_R x)).
    { rewrite Ho'.
      destruct ps as [ | p ps].
      - destruct (H0 eq_refl) as [E1 E2]. fold mu in E1. fold o in E2.
        assert (k = 0) by reflexivity. assert (S = 0) by reflexivity.
        assert (Q = 0) by reflexivity.
        assert (mu' = to_R x) by nra. nra.
      - assert (Hkpos : 0 < k).
        { unfold k, Exact.count. apply lt_0_INR. simpl. lia. }
        assert (Emu : mu = S / k) by (field_simplify_eq; lra).
        assert (Eo : o = Q - S * S / k) by (field_simplify_eq; lra).
        assert (Emu' : mu' = (S + to_R x) / (k + 1))
          by (field_simplify_eq; lra).
        rewrite Emu, Eo, Emu'. field. lra. }
    apply IH; try assumption.
    + rewrite Hk, HS. exact Hmu'.
    + rewrite Hk, HS, HQ. exact Ho2.
    + intros E. destruct ps; discriminate E.
Qed.

End KernelFacts.

(** ** binary64: zeros, the quotient by one, and the counts *)

Section ZeroFacts.

Import F64.
Local Open Scope float_scope.

(** A number is a zero or finite and not zero. *)
Lemma is_finite_spec (x : float) :
  is_finite x = true ->
  (exists s, Prim2SF x = S754_zero s) \/
  (exists s m e, Prim2SF x = S754_finite s m e).
Proof.
  rewrite is_finite_class.
  destruct (Prim2SF x) as [s | s | | s m e]; cbn; intros H;
    try discriminate; eauto.
Qed.

Lemma is_zero_spec (x : float) :
  is_zero x = true <-> exists s, Prim2SF x = S754_zero s.
Proof.
  rewrite is_zero_class. destruct (Prim2SF x) as [s | s | | s m e]; cbn;
    split; intros H; try discriminate; eauto; destruct H; discriminate.
Qed.

(** [x - 0 = x]. *)
Lemma float_sub_zero (x : float) : x - 0 = x.
Proof.
  apply Prim2SF_inj. rewrite sub_spec.
  change (Prim2SF 0) with (S754_zero false).
  destruct (Prim2SF x) as [[ | ] | [ | ] | | s m e]; reflexivity.
Qed.

(** [x - x = 0] for a number [x]. *)
Lemma float_sub_diag (x : float) : is_finite x = true -> x - x = 0.
Proof.
  intros H. apply Prim2SF_inj. rewrite sub_spec.
  change (Prim2SF 0) with (S754_zero false).
  destruct (is_finite_spec x H) as [[s E] | (s & m & e & E)]; rewrite E.
  - destruct s; reflexivity.
  - unfold SF64sub, SFsub. rewrite Z.sub_diag. reflexivity.
Qed.

(** [0 + z = 0] for a zero [z] of either sign. *)
Lemma float_zero_add_zero (z : float) : is_zero z = true -> 0 + z = 0.
Proof.
  intros H. apply is_zero_spec in H. destruct H as [s E].
  apply Prim2SF_inj. rewrite add_spec, E.
  change (Prim2SF 0) with (S754_zero false). destruct s; reflexivity.
Qed.

(** [0 + x] for a number [x]. *)
Lemma float_zero_add (x : float) :
  is_finite x = true -> 0 + x = x \/ (is_zero x = true /\ 0 + x = 0).
Proof.
  intros H. destruct (is_finite_spec x H) as [[s E] | (s & m & e & E)].
  - right. assert (Hz : is_zero x = true) by (apply is_zero_spec; eauto).
    split; [exact Hz | now apply float_zero_add_zero].
  - left. apply Prim2SF_inj. rewrite add_spec, E. reflexivity.
Qed.

(** [x + z] for a number [x] and a zero [z]. *)
Lemma float_add_zero (x z : float) :
  is_finite x = true -> is_zero z = true ->
  x + z = x \/ (is_zero x = true /\ x + z = 0).
Proof.
  intros Hx Hz. apply is_zero_spec in Hz. destruct Hz as [sz Ez].
  destruct (is_finite_spec x Hx) as [[s E] | (s & m & e & E)].
  - assert (Hzx : is_zero x = true) by (apply is_zero_spec; eauto).
    destruct s, sz.
    + left. apply Prim2SF_inj. rewrite add_spec, E, Ez. reflexivity.
    + right. split; [exact Hzx | ].
      apply Prim2SF_inj. rewrite add_spec, E, Ez. reflexivity.
    + right. split; [exact Hzx | ].
      apply Prim2SF_inj. rewrite add_spec, E, Ez. reflexivity.
    + left. apply Prim2SF_inj. rewrite add_spec, E, Ez. reflexivity.
  - left. apply Prim2SF_inj. rewrite add_spec, E, Ez. reflexivity.
Qed.

(** A zero times a number is a zero. *)
Lemma is_zero_mul (z x : float) :
  is_zero z = true -> is_finite x = true -> is_zero (z * x) = true.
Proof.
  intros Hz Hx. apply is_zero_spec in Hz. destruct Hz as [sz Ez].
  apply is_zero_spec. rewrite mul_spec, Ez.
  destruct (is_finite_spec x Hx) as [[s E] | (s & m & e & E)]; rewrite E;
    cbn; eauto.
Qed.

(** A zero over a divisor that is neither null nor zero is a zero. *)
Lemma is_zero_div (z d : float) :
  is_zero z = true -> is_nan d = false -> is_zero d = false ->
  is_zero (z / d) = true.
Proof.
  intros Hz. apply is_zero_spec in Hz. destruct Hz as [sz Ez].
  rewrite is_nan_class, (is_zero_class d). intros Hn Hd.
  apply is_zero_spec. rewrite div_spec, Ez.
  destruct (Prim2SF d) as [s | s | | s m e]; cbn in *; try discriminate; eauto.
Qed.

Lemma is_zero_finite (z : float) : is_zero z = true -> is_finite z = true.
Proof.
  intros H. apply is_zero_spec in H. destruct H as [s E].
  now rewrite is_finite_class, E.
Qed.

Lemma is_zero_sqrt (z : float) :
  is_zero z = true -> is_zero (PrimFloat.sqrt z) = true.
Proof.
  intros H. apply is_zero_spec in H. destruct H as [s E].
  apply is_zero_spec. rewrite sqrt_spec, E. cbn. eauto.
Qed.

Lemma is_zero_not_pos (z : float) : is_zero z = true -> (0 <? z) = false.
Proof.
  intros H. destruct (0 <? z) eqn:E; [ | reflexivity].
  rewrite (zero_ltb_not_zero _ E) in H. discriminate.
Qed.

End ZeroFacts.

Section DivOne.

Import F64.
Local Open Scope Z_scope.

Lemma div_eucl_mul (q b : Z) : 0 < b -> Z.div_eucl (q * b) b = (q, 0).
Proof.
  intros Hb. pose proof (Z.div_mul q b ltac:(lia)) as Hd.
  pose proof (Z.mod_mul q b ltac:(lia)) as Hm.
  unfold Z.div, Z.modulo in *. destruct (Z.div_eucl (q * b) b).
  simpl in *. congruence.
Qed.

(** The quotient of a finite number by 1: the mantissa is shifted left by
    53 bits (52 at the least exponent), divided by [2^52] without remainder,
    and shifted back by the rounding step. *)
Lemma SFdiv_one (s : bool) (m : positive) (e : Z) :
  SpecFloat.bounded prec emax m e = true ->
  SF64div (S754_finite s m e) (S754_finite false 4503599627370496 (-52))
  = S754_finite s m e.
Proof.
  intros H. apply andb_true_iff in H. destruct H as [Hc He].
  apply Z.eqb_eq in Hc. apply Z.leb_le in He.
  unfold fexp, emin in Hc.
  change prec with 53 in *. change emax with 1024 in *.
  set (d := Z.pos (digits2_pos m)) in *.
  assert (Hcase : (d = 53 /\ -1073 <= e) \/ (e = -1074 /\ d <= 53)) by lia.
  unfold SF64div, SFdiv, SFdiv_core_binary.
  change (Zdigits2 (Z.pos m)) with d.
  change (Zdigits2 (Z.pos 4503599627370496)) with 53.
  destruct Hcase as [[Hd He1] | [He1 Hd]].
  - replace (Z.min (fexp prec emax (d + e - (53 + -52)))
                   (e - -52))
      with (e - 1)
      by (unfold fexp, emin; change prec with 53;
          change emax with 1024; lia).
    replace (e - -52 - (e - 1)) with 53 by lia.
    cbv iota.
    replace (Z.shiftl (Z.pos m) 53) with (Z.pos m~0 * 4503599627370496)
      by (rewrite Z.shiftl_mul_pow2 by lia; lia).
    rewrite div_eucl_mul by lia.
    change (new_location 4503599627370496 0) with loc_Exact.
    unfold binary_round_aux, shr_fexp.
    change (Zdigits2 (Z.pos m~0)) with (Z.pos (Pos.succ (digits2_pos m))).
    replace (fexp prec emax
               (Z.pos (Pos.succ (digits2_pos m)) + (e - 1)) - (e - 1))
      with 1
      by (unfold fexp, emin; change prec with 53;
          change emax with 1024; fold d; lia).
    cbn [shr shr_record_of_loc SpecFloat.iter_pos shr_1 shr_m orb
         loc_of_shr_record round_nearest_even].
    replace (e - 1 + 1) with e by lia.
    change (Zdigits2 (Z.pos m)) with d.
    replace (fexp prec emax (d + e) - e) with 0
      by (unfold fexp, emin; change prec with 53;
          change emax with 1024; lia).
    cbn [shr shr_m].
    replace (e <=? emax - prec) with true
      by (symmetry; apply Z.leb_le; exact He).
    now rewrite xorb_false_r.
  - subst e.
    replace (Z.min (fexp prec emax (d + -1074 - (53 + -52)))
                   (-1074 - -52))
      with (-1074)
      by (unfold fexp, emin; change prec with 53;
          change emax with 1024; lia).
    change (-1074 - -52 - -1074) with 52.
    cbv iota.
    replace (Z.shiftl (Z.pos m) 52) with (Z.pos m * 4503599627370496)
      by (rewrite Z.shiftl_mul_pow2 by lia; lia).
    rewrite div_eucl_mul by lia.
    change (new_location 4503599627370496 0) with loc_Exact.
    unfold binary_round_aux, shr_fexp.
    change (Zdigits2 (Z.pos m)) with d.
    replace (fexp prec emax (d + -1074) - -1074) with 0
      by (unfold fexp, emin; change prec with 53;
          change emax with 1024; lia).
    cbn [shr shr_record_of_loc shr_m loc_of_shr_record round_nearest_even].
    change (Zdigits2 (Z.pos m)) with d.
    replace (fexp prec emax (d + -1074) - -1074) with 0
      by (unfold fexp, emin; change prec with 53;
          change emax with 1024; lia).
    cbn [shr shr_m].
    change (-1074 <=? emax - prec) with true.
    now rewrite xorb_false_r.
Qed.

Local Open Scope float_scope.

(** [x / 1 = x] for a number [x]. *)
Lemma float_div_one (x : float) : is_finite x = true -> x / 1 = x.
Proof.
  intros H. apply Prim2SF_inj. rewrite div_spec.
  change (Prim2SF 1) with (S754_finite false 4503599627370496 (-52)).
  pose proof (Prim2SF_valid x) as Hv.
  destruct (is_finite_spec x H) as [[s E] | (s & m & e & E)];
    rewrite E in *.
  - destruct s; reflexivity.
  - apply SFdiv_one. exact Hv.
Qed.

End DivOne.

Section RoundPositive.

Import F64.
Local Open Scope Z_scope.

(** A number of [d] binary digits is at least [2^(d-1)]. *)
Lemma digits2_pos_lower (m : positive) :
  2 ^ (Z.pos (digits2_pos m) - 1) <= Z.pos m.
Proof.
  induction m as [m IH | m IH | ]; cbn [digits2_pos].
  - rewrite Pos2Z.inj_succ.
    replace (Z.succ (Z.pos (digits2_pos m)) - 1)
      with (Z.succ (Z.pos (digits2_pos m) - 1)) by lia.
    rewrite Z.pow_succ_r by lia. lia.
  - rewrite Pos2Z.inj_succ.
    replace (Z.succ (Z.pos (digits2_pos m)) - 1)
      with (Z.succ (Z.pos (digits2_pos m) - 1)) by lia.
    rewrite Z.pow_succ_r by lia. lia.
  - simpl. lia.
Qed.

Lemma shr_1_half (mrs : shr_record) :
  0 <= shr_m mrs -> shr_m (shr_1 mrs) = shr_m mrs / 2.
Proof.
  destruct mrs as [m r s]. cbn [shr_m shr_1].
  destruct m as [ | [p | p | ] | p]; cbn [shr_m]; intros H; try lia.
  - reflexivity.
  - apply (Z.div_unique (Z.pos p~1) 2 (Z.pos p) 1); lia.
  - apply (Z.div_unique (Z.pos p~0) 2 (Z.pos p) 0); lia.
  - reflexivity.
Qed.

Lemma iter_pos_shr_1_div (k : positive) (mrs : shr_record) :
  0 <= shr_m mrs ->
  shr_m (SpecFloat.iter_pos shr_1 k mrs) = shr_m mrs / 2 ^ Z.pos k.
Proof.
  revert mrs. induction k as [k IH | k IH | ]; intros mrs H;
    cbn [SpecFloat.iter_pos].
  - rewrite IH by (apply iter_pos_shr_1_nonneg, shr_1_nonneg, H).
    rewrite IH by (apply shr_1_nonneg, H).
    rewrite shr_1_half by exact H.
    rewrite !Z.div_div by lia.
    replace (Z.pos k~1) with (1 + Z.pos k + Z.pos k) by lia.
    rewrite !Z.pow_add_r by lia. rewrite Z.pow_1_r. f_equal. lia.
  - rewrite IH by (apply iter_pos_shr_1_nonneg, H).
    rewrite IH by exact H.
    rewrite Z.div_div by lia.
    replace (Z.pos k~0) with (Z.pos k + Z.pos k) by lia.
    rewrite Z.pow_add_r by lia. reflexivity.
  - rewrite shr_1_half by exact H. reflexivity.
Qed.

Lemma shr_record_of_loc_m (m : Z) (l : location) :
  shr_m (shr_record_of_loc m l) = m.
Proof. destruct l as [ | [ | | ]]; reflexivity. Qed.

(** Shifting a positive mantissa to its canonical exponent leaves it
    positive, when the exponent is not below the least one. *)
Lemma shr_fexp_positive (m : positive) (e : Z) (l : location) :
  -1074 <= e ->
  exists m', shr_m (fst (shr_fexp prec emax (Z.pos m) e l)) = Z.pos m' /\
             e <= snd (shr_fexp prec emax (Z.pos m) e l).
Proof.
  intros He. unfold shr_fexp, shr.
  cbn [Zdigits2].
  set (d := Z.pos (digits2_pos m)).
  assert (Hn : fexp prec emax (d + e) - e <= 0 \/
               fexp prec emax (d + e) - e = d - 53 /\ 0 < d - 53).
  { unfold fexp, emin. change prec with 53. change emax with 1024. lia. }
  destruct (fexp prec emax (d + e) - e) as [ | k | k] eqn:E.
  - exists m. cbn [fst snd]. rewrite shr_record_of_loc_m.
    split; [reflexivity | lia].
  - destruct Hn as [Hn | [Hn Hd]]; [lia | ].
    cbn [fst snd].
    rewrite iter_pos_shr_1_div
      by (rewrite shr_record_of_loc_m; lia).
    rewrite shr_record_of_loc_m.
    pose proof (digits2_pos_lower m) as Hlow. fold d in Hlow.
    assert (Hk : 2 ^ Z.pos k <= Z.pos m).
    { apply Z.le_trans with (2 ^ (d - 1)); [ | exact Hlow].
      apply Z.pow_le_mono_r; lia. }
    assert (Hq : 1 <= Z.pos m / 2 ^ Z.pos k).
    { apply Z.div_le_lower_bound; lia. }
    destruct (Z.pos m / 2 ^ Z.pos k) as [ | q | q] eqn:Eq; try lia.
    exists q. split; [reflexivity | lia].
  - exists m. cbn [fst snd]. rewrite shr_record_of_loc_m.
    split; [reflexivity | lia].
Qed.

Lemma round_nearest_even_positive (m : positive) (l : location) :
  exists m', round_nearest_even (Z.pos m) l = Z.pos m'.
Proof.
  destruct l as [ | [ | | ]]; cbn [round_nearest_even]; eauto.
  - destruct (Z.even (Z.pos m)); eauto. exists (m + 1)%positive. lia.
  - exists (m + 1)%positive. lia.
Qed.

(** Rounding a positive mantissa at an exponent not below the least one
    gives an infinity or a finite number other than zero, of an exponent
    not below the given one. *)
Lemma binary_round_aux_positive (s : bool) (m : positive) (e : Z)
    (l : location) :
  -1074 <= e ->
  binary_round_aux prec emax s (Z.pos m) e l = S754_infinity s \/
  exists m' e', binary_round_aux prec emax s (Z.pos m) e l
                = S754_finite s m' e' /\ e <= e'.
Proof.
  intros He. unfold binary_round_aux.
  destruct (shr_fexp_positive m e l He) as (m1 & H1 & He1).
  destruct (shr_fexp prec emax (Z.pos m) e l) as [mrs' e'].
  cbn [fst snd] in H1, He1. rewrite H1.
  destruct (round_nearest_even_positive m1 (loc_of_shr_record mrs'))
    as (m2 & H2).
  rewrite H2.
  destruct (shr_fexp_positive m2 e' loc_Exact ltac:(lia)) as (m3 & H3 & He3).
  destruct (shr_fexp prec emax (Z.pos m2) e' loc_Exact)
    as [mrs'' e''].
  cbn [fst snd] in H3, He3. rewrite H3.
  destruct (e'' <=? emax - prec); [right | left; reflexivity].
  exists m3, e''. split; [reflexivity | lia].
Qed.

Lemma binary_round_positive (s : bool) (m : positive) (e : Z) :
  -1074 <= e ->
  binary_round prec emax s m e = S754_infinity s \/
  exists m' e', binary_round prec emax s m e = S754_finite s m' e' /\
                Z.min e (fexp prec emax (Z.pos (digits2_pos m) + e)) <= e'.
Proof.
  intros He. unfold binary_round, shl_align.
  set (f := fexp prec emax (Z.pos (digits2_pos m) + e)).
  assert (Hf : -1074 <= f)
    by (unfold f, fexp, emin; change prec with 53; change emax with 1024;
        lia).
  destruct (f - e) as [ | k | k] eqn:E.
  - destruct (binary_round_aux_positive s m e loc_Exact He)
      as [H | (m' & e' & H & Hle)]; [now left | right].
    exists m', e'. split; [exact H | lia].
  - destruct (binary_round_aux_positive s m e loc_Exact He)
      as [H | (m' & e' & H & Hle)]; [now left | right].
    exists m', e'. split; [exact H | lia].
  - destruct (binary_round_aux_positive s (Pos.iter xO m k) f loc_Exact Hf)
      as [H | (m' & e' & H & Hle)]; [now left | right].
    exists m', e'. split; [exact H | lia].
Qed.

End RoundPositive.

Section Counts.

Import F64.
Local Open Scope Z_scope.

Lemma iter_xO_mul (m k : positive) :
  Z.pos (Pos.iter xO m k) = Z.pos m * 2 ^ Z.pos k.
Proof.
  induction k as [ | k IH] using Pos.peano_ind.
  - simpl. lia.
  - rewrite Pos.iter_succ, Pos2Z.inj_xO, IH, Pos2Z.inj_succ, Z.pow_succ_r
      by lia.
    lia.
Qed.

Lemma digits2_pos_two (p : positive) :
  2 <= Z.pos p -> 2 <= Z.pos (digits2_pos p).
Proof. destruct p; cbn [digits2_pos]; lia. Qed.

(** The count [k] as a float: a positive number, of exponent above -52
    from 2 on (1 is [2^52 * 2^-52]). *)
Lemma of_count_positive (k : Z) :
  1 <= k < 2 ^ 63 ->
  Prim2SF (of_count k) = S754_infinity false \/
  exists m e, Prim2SF (of_count k) = S754_finite false m e /\
              (2 <= k -> -51 <= e).
Proof.
  intros Hk. unfold of_count. rewrite of_uint63_spec, Uint63.of_Z_spec.
  change Uint63.wB with (2 ^ 63). rewrite Z.mod_small by lia.
  destruct k as [ | p | p]; try lia.
  cbn [binary_normalize].
  destruct (binary_round_positive false p 0 ltac:(lia))
    as [H | (m & e & H & He)]; [now left | right].
  exists m, e. split; [exact H | ]. intros H2.
  pose proof (digits2_pos_two p H2) as Hd.
  revert He. unfold fexp, emin.
  change prec with 53. change emax with 1024. lia.
Qed.

End Counts.

(** ** pandas' standard deviation of copies of one number *)

Section ConstantGroup.

Import F64.
Local Open Scope float_scope.

(** From 1 on the count is a float that is neither null nor zero, and
    from 2 on so is the count less one. *)
Lemma of_count_proper (k : Z) :
  (1 <= k < 2 ^ 63)%Z ->
  is_nan (of_count k) = false /\ is_zero (of_count k) = false.
Proof.
  intros Hk. rewrite is_nan_class, is_zero_class.
  destruct (of_count_positive k Hk) as [E | (m & e & E & _)]; rewrite E;
    split; reflexivity.
Qed.

Lemma count_less_one_proper (n : Z) :
  (2 <= n < 2 ^ 63)%Z ->
  is_nan (of_count n - 1) = false /\ is_zero (of_count n - 1) = false.
Proof.
  intros Hn. rewrite is_nan_class, is_zero_class, sub_spec.
  pose proof (Prim2SF_valid (of_count n)) as Hv.
  change (Prim2SF 1) with (S754_finite false 4503599627370496 (-52)).
  destruct (of_count_positive n ltac:(lia)) as [E | (m & e & E & He)];
    rewrite E in *; [split; reflexivity | ].
  specialize (He ltac:(lia)).
  cbn [valid_binary] in Hv. apply andb_true_iff in Hv. destruct Hv as [Hc _].
  apply Z.eqb_eq in Hc. unfold fexp, emin in Hc.
  change prec with 53%Z in Hc. change emax with 1024%Z in Hc.
  pose proof (digits2_pos_lower m) as Hlow.
  replace (Z.pos (digits2_pos m) - 1)%Z with 52%Z in Hlow by lia.
  unfold SF64sub, SFsub.
  replace (Z.min e (-52)) with (-52)%Z by lia.
  unfold shl_align. change (-52 - -52)%Z with 0%Z. cbn [fst cond_Zopp].
  destruct (-52 - e)%Z as [ | k | k] eqn:Ek; try lia.
  cbn [fst]. 
  destruct (Z.pos (Pos.iter xO m k) - 4503599627370496)%Z as [ | q | q] eqn:Eq.
  - rewrite iter_xO_mul in Eq. 
    assert (2 <= 2 ^ Z.pos k)%Z.
    { change 2%Z with (2 ^ 1)%Z at 1. apply Z.pow_le_mono_r; lia. }
    nia.
  - cbn [binary_normalize].
    destruct (binary_round_positive false q (-52) ltac:(lia))
      as [H | (m' & e' & H & _)]; rewrite H; split; reflexivity.
  - cbn [binary_normalize].
    destruct (binary_round_positive true q (-52) ltac:(lia))
      as [H | (m' & e' & H & _)]; rewrite H; split; reflexivity.
Qed.

(** The first update, from the initial state: [(x - 0) / 1 = x]. *)
Lemma step_first (x : float) :
  is_finite x = true ->
  GroupVar.nobs (GroupVar.step GroupVar.init x) = 1%Z /\
  constant_state x (GroupVar.step GroupVar.init x).
Proof.
  intros Hx. unfold GroupVar.step.
  rewrite (is_finite_notna x Hx).
  cbn [GroupVar.nobs GroupVar.mean GroupVar.out GroupVar.init].
  split; [reflexivity | ].
  change (of_count (0 + 1)) with 1.
  rewrite float_sub_zero, (float_div_one x Hx).
  unfold constant_state. cbn [GroupVar.mean GroupVar.out].
  destruct (float_zero_add x Hx) as [E | [Hz E]]; rewrite E.
  - split; [ | now left].
    rewrite (float_sub_diag x Hx).
    apply float_zero_add_zero, is_zero_mul; [reflexivity | exact Hx].
  - split; [ | right; now split].
    rewrite float_sub_zero.
    apply float_zero_add_zero, is_zero_mul; [exact Hz | exact Hx].
Qed.

(** A further update: [x - mean] is a zero, and so are the quotient
    added to the mean and the product added to [out]. *)
Lemma step_next (x : float) (st : GroupVar.state) :
  is_finite x = true ->
  (1 <= GroupVar.nobs st < 2 ^ 63 - 1)%Z ->
  constant_state x st ->
  GroupVar.nobs (GroupVar.step st x) = (GroupVar.nobs st + 1)%Z /\
  constant_state x (GroupVar.step st x).
Proof.
  intros Hx Hn [Ho Hm]. unfold GroupVar.step.
  rewrite (is_finite_notna x Hx).
  cbn [GroupVar.nobs GroupVar.mean GroupVar.out].
  split; [reflexivity | ].
  destruct (of_count_proper (GroupVar.nobs st + 1) ltac:(lia)) as [Hnan Hzero].
  unfold constant_state. cbn [GroupVar.mean GroupVar.out]. rewrite Ho.
  set (d := x - GroupVar.mean st).
  assert (Hd : is_zero d = true).
  { unfold d. destruct Hm as [-> | [Hz ->]].
    - now rewrite (float_sub_diag x Hx).
    - now rewrite float_sub_zero. }
  pose proof (is_zero_div d _ Hd Hnan Hzero) as Hq.
  set (q := d / of_count (GroupVar.nobs st + 1)) in *.
  assert (Hm' : GroupVar.mean st + q = x
                \/ (is_zero x = true /\ GroupVar.mean st + q = 0)).
  { destruct Hm as [-> | [Hz ->]].
    - exact (float_add_zero x q Hx Hq).
    - right. split; [exact Hz | now apply float_zero_add_zero]. }
  split; [ | exact Hm'].
  apply float_zero_add_zero, is_zero_mul; [ | now apply is_zero_finite].
  destruct Hm' as [-> | [Hz ->]].
  - now rewrite (float_sub_diag x Hx).
  - now rewrite float_sub_zero.
Qed.

Lemma steps_constant (x : float) (xs : list float) (st : GroupVar.state) :
  is_finite x = true ->
  Forall (eq x) xs ->
  (1 <= GroupVar.nobs st)%Z ->
  (GroupVar.nobs st + Z.of_nat (length xs) < 2 ^ 63)%Z ->
  constant_state x st ->
  GroupVar.nobs (fold_left GroupVar.step xs st)
  = (GroupVar.nobs st + Z.of_nat (length xs))%Z /\
  constant_state x (fold_left GroupVar.step xs st).
Proof.
  intros Hx Hall. revert st.
  induction Hall as [ | y xs <- Hall IH]; intros st Hn Hlen Hst.
  - cbn [fold_left length]. split; [lia | exact Hst].
  - cbn [fold_left]. cbn [length] in Hlen.
    destruct (step_next x st Hx ltac:(lia) Hst) as [Hn' Hst'].
    destruct (IH (GroupVar.step st x) ltac:(lia) ltac:(lia) Hst')
      as [Hn'' Hst''].
    split; [ | exact Hst'']. rewrite Hn'', Hn'. cbn [length]. lia.
Qed.

(** The standard deviation of two or more copies of one number is a
    zero. *)
Lemma std_constant (x : float) (xs : list float) :
  is_finite x = true ->
  Forall (eq x) xs ->
  (2 <= length xs)%nat ->
  (Z.of_nat (length xs) < 2 ^ 63)%Z ->
  is_zero (std xs) = true.
Proof.
  intros Hx Hall Hlen Hbound.
  destruct xs as [ | y xs]; [simpl in Hlen; lia | ].
  apply Forall_cons_iff in Hall. destruct Hall as [<- Hall'].
  unfold std. cbn [fold_left].
  destruct (step_first x Hx) as [Hn1 Hst1].
  cbn [length] in Hlen, Hbound.
  destruct (steps_constant x xs (GroupVar.step GroupVar.init x) Hx Hall'
              ltac:(lia) ltac:(lia) Hst1) as [Hn [Ho _]].
  rewrite Hn, Hn1, Ho.
  replace (1 + Z.of_nat (length xs) <=? 1)%Z with false
    by (symmetry; apply Z.leb_gt; lia).
  apply is_zero_sqrt.
  destruct (count_less_one_proper (1 + Z.of_nat (length xs)) ltac:(lia))
    as [Hnan Hzero].
  apply is_zero_div; [reflexivity | exact Hnan | exact Hzero].
Qed.

End ConstantGroup.

(** ** Mean and standard deviation of the scores of a month *)

Section MonthScores.

Variables agg_mean agg_std : list float -> float.


End MonthScores.

Section ZScores.

Import F64.
Local Open Scope float_scope.


End ZScores.

(** The six-month run. *)
Lemma panel_run :
  ShortConviction mean std Panel.signal_master Panel.monthly_crsp
    Panel.monthly_short = Ok Panel.output.
Proof. vm_compute. reflexivity. Defined.



(** ** The raw factor *)

Section RawFactor.

Import F64.
Local Open Scope float_scope.

(** C1: the columns of the raw factor, for every row [r] of the frame [df]
    the signal is built on.  The ratio is the quotient of the row's own
    [shortint] and [shrout], and it is this quotient that the lag helper is
    given; the cumulative return, the percentage change and the raw factor
    are the stated expressions of these columns, the raw factor being -1
    times the percentage change times the cumulative return. *)
Theorem raw_factor_formula (df : list Frame.row) (r : Frame.row) :
  SI_ratio r = Frame.shortint r / Frame.shrout r /\
  SI_ratio_lag2 df r
  = stata_multi_lag df (fun r' => Frame.shortint r' / Frame.shrout r') 2 r /\
  ret_lag1 df r = stata_multi_lag df Frame.ret 1 r /\
  ret_lag2 df r = stata_multi_lag df Frame.ret 2 r /\
  cumret_2m df r = (1 + ret_lag1 df r) * (1 + ret_lag2 df r) - 1 /\
  SI_pct_change df r
  = (SI_ratio r - SI_ratio_lag2 df r) / SI_ratio_lag2 df r /\
  ShortConviction_raw df r = -1 * SI_pct_change df r * cumret_2m df r.
Proof.
  repeat (split; [reflexivity | ]).
  unfold ShortConviction_raw. now rewrite mul_minus_one.
Qed.

End RawFactor.

(** The raw factor of security 2 in month 3 of the small run: the ratio
    went from 1/16 to 1/8, the two returns before were 1/4 each. *)
Example sample_raw_factor :
  SI_pct_change Sample.df Sample.row_2_3 = 1%float /\
  cumret_2m Sample.df Sample.row_2_3 = 0.5625%float /\
  ShortConviction_raw Sample.df Sample.row_2_3 = (-0.5625)%float.
Proof. repeat split; vm_compute; reflexivity. Qed.

(** ** The standardised factor on the sample runs *)

(** pandas' kernels on two small groups.  The compensation recovers what
    the running sum loses: the plain sum of 1, [2^-53] and [2^-53] is 1, the
    compensated sum is [1 + 2^-52].  Three copies of the binary64 number
    nearest to 0.1 have the standard deviation 0. *)
Example mean_compensated :
  fold_left add [1; 0x1p-53; 0x1p-53]%float 0%float = 1%float /\
  GroupMean.sumx
    (fold_left GroupMean.step [1; 0x1p-53; 0x1p-53]%float GroupMean.init)
  = 0x1.0000000000001p+0%float /\
  mean [1; 0x1p-53; 0x1p-53]%float = 0x1.5555555555557p-2%float.
Proof. repeat split; vm_compute; reflexivity. Qed.

Example std_of_copies :
  std [0x1.999999999999ap-4; 0x1.999999999999ap-4; 0x1.999999999999ap-4]%float
  = 0%float.
Proof. vm_compute. reflexivity. Qed.

(** The months of the six-month run, each with its non-null clipped raw
    factors, their mean and their standard deviation. *)
Example panel_months :
  map (fun m => (m, Panel.cohort m, mean (Panel.cohort m),
                 std (Panel.cohort m)))
      [1; 2; 3; 4; 5; 6]%Z
  = [ (1%Z, [], nan, nan);
      (2%Z, [], nan, nan);
      (3%Z, [(-1)%float; 1%float; 3%float], 1%float, 2%float);
      (4%Z, [(-1)%float; 1%float], 0%float, 0x1.6a09e667f3bcdp+0%float);
      (5%Z, [0.5%float], 0.5%float, nan);
      (6%Z, [(-1)%float; (-1)%float], (-1)%float, 0%float) ].
Proof. vm_compute. reflexivity. Qed.

(** C2 on the six-month run: the output is [Panel.output], whose scores
    of months 3 and 4 are taken against the statistics of month 3 and of
    month 4. *)
Lemma standardized_by_month_witness :
  ShortConviction mean std Panel.signal_master Panel.monthly_crsp
    Panel.monthly_short = Ok Panel.output /\
  map (fun m => (m, Panel.cohort m, mean (Panel.cohort m),
                 std (Panel.cohort m)))
      [3; 4]%Z
  = [ (3%Z, [(-1)%float; 1%float; 3%float], 1%float, 2%float);
      (4%Z, [(-1)%float; 1%float], 0%float, 0x1.6a09e667f3bcdp+0%float) ] /\
  exists joined frame,
    merge_crsp Panel.signal_master Panel.monthly_crsp = Ok joined /\
    merge_short (filter gvkey_notna joined) Panel.monthly_short = Ok frame /\
    let df := sort_values frame in
    let raw := ShortConviction_raw_clip df in
    let cohort (r : Frame.row) :=
      filter notna
        (map raw
             (filter (fun r' =>
                        (Frame.time_avail_m r' =? Frame.time_avail_m r)%Z)
                     df)) in
    Panel.output =
    map (fun r =>
           Predictor.mk (Frame.permno r) (Frame.time_avail_m r)
             (standardize (raw r) (mean (cohort r)) (std (cohort r))))
        df
    ++ map (fun j => Predictor.mk (Joined.permno j) (Joined.time_avail_m j) nan)
           (filter gvkey_isna joined) /\
    (forall x mu sd,
       (0 <? sd)%float = true -> isna x = false ->
       standardize x mu sd = ((x - mu) / sd)%float) /\
    (forall x mu sd,
       (0 <? sd)%float = false \/ isna x = true -> standardize x mu sd = nan) /\
    (forall sd, is_zero sd = true \/ isna sd = true -> (0 <? sd)%float = false) /\
    (forall xs, (length xs < 2)%nat -> std xs = nan).
Proof.
  split; [exact panel_run | ]. split; [vm_compute; reflexivity | ].
  exact (standardized_by_month Panel.signal_master Panel.monthly_crsp
           Panel.monthly_short Panel.output panel_run).
Defined.



(** * Further properties of the script *)

(** ** More on the merges *)

Section MergeRows.

Context {L R K O : Type}.
Variable key_eqb : K -> K -> bool.
Variable left_on : L -> K.
Variable right_on : R -> K.

(** A pair of rows with equal keys is in the inner join. *)
Lemma inner_join_In (combine : L -> R -> O) (left : list L) (right : list R)
    (l : L) (r : R) :
  In l left -> In r right -> key_eqb (left_on l) (right_on r) = true ->
  In (combine l r) (inner_join key_eqb left_on right_on combine left right).
Proof.
  intros Hl Hr Hk. unfold inner_join. apply in_flat_map.
  exists l. split; [exact Hl | ]. apply in_map. unfold matching.
  apply filter_In. split; assumption.
Qed.

(** A filter on the left-hand columns can be moved before the join. *)
Lemma filter_inner_join (combine : L -> R -> O) (p : L -> bool) (q : O -> bool)
    (left : list L) (right : list R) :
  (forall l r, q (combine l r) = p l) ->
  filter q (inner_join key_eqb left_on right_on combine left right)
  = inner_join key_eqb left_on right_on combine (filter p left) right.
Proof.
  intros Hq. unfold inner_join.
  induction left as [ | l left IH]; simpl; [reflexivity | ].
  rewrite filter_app, IH.
  assert (Hl : filter q (map (combine l)
                             (matching key_eqb left_on right_on l right))
               = if p l
                 then map (combine l) (matching key_eqb left_on right_on l right)
                 else []).
  { induction (matching key_eqb left_on right_on l right) as [ | r rs IHr];
      simpl.
    - now destruct (p l).
    - rewrite Hq, IHr. now destruct (p l). }
  rewrite Hl. now destruct (p l).
Qed.

End MergeRows.

Section Completion.

Variables agg_mean agg_std : list float -> float.

(** The keys of a run that does not raise. *)
Lemma ShortConviction_Ok_keys (signal_master : list SignalMaster.row)
    (monthly_crsp : list CRSP.row) (monthly_short : list ShortInterest.row)
    (out : list Predictor.row) :
  ShortConviction agg_mean agg_std signal_master monthly_crsp monthly_short
  = Ok out ->
  NoDup (map master_key signal_master) /\
  NoDup (map crsp_key monthly_crsp) /\
  NoDup (map joined_gvkey_key
           (filter gvkey_notna
              (inner_join (pair_eqb Z.eqb) master_key crsp_key with_shrout
                 signal_master monthly_crsp))) /\
  NoDup (map short_key monthly_short).
Proof.
  intros H. apply ShortConviction_Ok in H.
  destruct H as (df & frame & H1 & H2 & _).
  unfold merge_crsp in H1. apply (merge_1to1_Ok _ key_ZZ_eqb_eq) in H1.
  destruct H1 as (Hm & Hc & ->).
  unfold merge_short in H2. apply (merge_1to1_Ok _ key_gvkey_eqb_eq) in H2.
  destruct H2 as (Hl & Hs & _). auto.
Qed.

(** X2: the script runs through exactly when no merge key repeats: the keys
    [(permno, time_avail_m)] of the master table and of [monthly_crsp], the
    keys [(gvkey, time_avail_m)] of the joined rows with a valid [gvkey],
    and those of [monthly_short].  Each table is checked as a whole, whether
    or not the repeated key has a partner on the other side. *)
Theorem completes_iff_keys_unique (signal_master : list SignalMaster.row)
    (monthly_crsp : list CRSP.row) (monthly_short : list ShortInterest.row) :
  (exists out,
      ShortConviction agg_mean agg_std signal_master monthly_crsp
        monthly_short = Ok out) <->
  NoDup (map master_key signal_master) /\
  NoDup (map crsp_key monthly_crsp) /\
  NoDup (map joined_gvkey_key
           (filter gvkey_notna
              (inner_join (pair_eqb Z.eqb) master_key crsp_key with_shrout
                 signal_master monthly_crsp))) /\
  NoDup (map short_key monthly_short).
Proof.
  split.
  - intros [out H]. exact (ShortConviction_Ok_keys _ _ _ _ H).
  - intros (Hm & Hc & Hl & Hs).
    assert (H1 : merge_crsp signal_master monthly_crsp
                 = Ok (inner_join (pair_eqb Z.eqb) master_key crsp_key
                         with_shrout signal_master monthly_crsp)).
    { unfold merge_crsp. apply (merge_1to1_Ok _ key_ZZ_eqb_eq). auto. }
    unfold ShortConviction. rewrite H1. simpl.
    set (df := inner_join _ _ _ _ _ _) in *.
    assert (H2 : merge_short (filter gvkey_notna df) monthly_short
                 = Ok (left_join (pair_eqb option_Z_eqb) joined_gvkey_key
                         short_key with_shortint (filter gvkey_notna df)
                         monthly_short)).
    { unfold merge_short. apply (merge_1to1_Ok _ key_gvkey_eqb_eq). auto. }
    rewrite H2. simpl. eexists. reflexivity.
Qed.

(** X3: two securities of one company.  When two master rows with different
    keys [(permno, time_avail_m)], both with a partner in [monthly_crsp],
    carry the same valid [gvkey] in the same month, the left merge on
    [(gvkey, time_avail_m)] finds its key twice on the left and the script
    raises [MergeError]. *)
Theorem shared_gvkey_raises (signal_master : list SignalMaster.row)
    (monthly_crsp : list CRSP.row) (monthly_short : list ShortInterest.row)
    (l1 l2 : SignalMaster.row) (g : Z) :
  In l1 signal_master -> In l2 signal_master ->
  master_key l1 <> master_key l2 ->
  in_crsp monthly_crsp l1 = true -> in_crsp monthly_crsp l2 = true ->
  SignalMaster.gvkey l1 = Some g -> SignalMaster.gvkey l2 = Some g ->
  SignalMaster.time_avail_m l1 = SignalMaster.time_avail_m l2 ->
  ShortConviction agg_mean agg_std signal_master monthly_crsp monthly_short
  = MergeError.
Proof.
  intros Hl1 Hl2 Hne Hc1 Hc2 Hg1 Hg2 Ht.
  destruct (ShortConviction agg_mean agg_std signal_master monthly_crsp
              monthly_short) as [out | ] eqn:E; [ | reflexivity].
  exfalso.
  apply ShortConviction_Ok_keys in E. destruct E as (_ & _ & Hnd & _).
  unfold in_crsp in Hc1, Hc2.
  apply existsb_exists in Hc1. destruct Hc1 as (c1 & Hin1 & Hk1).
  apply existsb_exists in Hc2. destruct Hc2 as (c2 & Hin2 & Hk2).
  set (df := inner_join _ _ _ _ _ _) in Hnd.
  assert (Hj1 : In (with_shrout l1 c1) (filter gvkey_notna df)).
  { apply filter_In. split.
    - now apply inner_join_In.
    - unfold gvkey_notna, gvkey_isna. simpl. now rewrite Hg1. }
  assert (Hj2 : In (with_shrout l2 c2) (filter gvkey_notna df)).
  { apply filter_In. split.
    - now apply inner_join_In.
    - unfold gvkey_notna, gvkey_isna. simpl. now rewrite Hg2. }
  assert (Heq : with_shrout l1 c1 = with_shrout l2 c2).
  { apply (NoDup_map_inj_on joined_gvkey_key _ _ _ Hnd Hj1 Hj2).
    unfold joined_gvkey_key. simpl. now rewrite Hg1, Hg2, Ht. }
  apply Hne. unfold master_key. unfold with_shrout in Heq.
  injection Heq as Hp _ Htm _ _. now rewrite Hp, Htm.
Qed.

End Completion.

Section MergedRows.

Variables agg_mean agg_std : list float -> float.

Import F64.
Local Open Scope float_scope.

(** X4: the frame of lines 58-64, row by row.  When the merge passes, the
    joined frame lists, in the order of the master table, the master rows
    that have a partner in [monthly_crsp], each once, with its own [permno],
    [gvkey], [time_avail_m] and [ret] and the [shrout] of that partner; a
    master row without a partner leaves no row.  It is never longer than the
    master table. *)
Theorem merge_crsp_rows (signal_master : list SignalMaster.row)
    (monthly_crsp : list CRSP.row) (df : list Joined.row) :
  merge_crsp signal_master monthly_crsp = Ok df ->
  df = flat_map
         (fun l =>
            match
              find (fun c => pair_eqb Z.eqb (master_key l) (crsp_key c))
                   monthly_crsp
            with
            | Some c =>
              [Joined.mk (SignalMaster.permno l) (SignalMaster.gvkey l)
                         (SignalMaster.time_avail_m l) (SignalMaster.ret l)
                         (CRSP.shrout c)]
            | None => []
            end) signal_master /\
  (length df <= length signal_master)%nat.
Proof.
  unfold merge_crsp. intros H.
  apply (merge_1to1_Ok _ key_ZZ_eqb_eq) in H. destruct H as (_ & Hc & ->).
  rewrite (inner_join_find _ key_ZZ_eqb_eq _ _ _ _ _ Hc).
  split; [reflexivity | ].
  induction signal_master as [ | l ls IH]; simpl; [lia | ].
  rewrite length_app. destruct (find _ monthly_crsp); simpl; lia.
Qed.

(** X5: the frame of lines 80-82, row by row.  When the merge passes, the
    frame has the rows it had before, in the same order and as many, each
    with its columns unchanged and with the [shortint] of the one record of
    [monthly_short] that carries its [(gvkey, time_avail_m)], or null when
    there is none. *)
Theorem merge_short_rows (df : list Joined.row)
    (monthly_short : list ShortInterest.row) (frame : list Frame.row) :
  merge_short df monthly_short = Ok frame ->
  frame = map
            (fun j =>
               Frame.mk (Joined.permno j) (Joined.gvkey j)
                 (Joined.time_avail_m j) (Joined.ret j) (Joined.shrout j)
                 match
                   find (fun s => pair_eqb option_Z_eqb (joined_gvkey_key j)
                                           (short_key s)) monthly_short
                 with
                 | Some s => ShortInterest.shortint s
                 | None => nan
                 end) df /\
  length frame = length df.
Proof.
  unfold merge_short. intros H.
  apply (merge_1to1_Ok _ key_gvkey_eqb_eq) in H. destruct H as (_ & Hs & ->).
  rewrite (left_join_find _ key_gvkey_eqb_eq _ _ _ _ _ Hs).
  split; [reflexivity | apply length_map].
Qed.

(** A null ratio gives a null signal, whatever the statistics of the
    month. *)
Lemma null_ratio_null_signal (df : list Frame.row) (r : Frame.row)
    (mean std : float) :
  isna (SI_ratio r) = true ->
  standardize (ShortConviction_raw_clip df r) mean std = nan.
Proof.
  intros H. unfold isna in H.
  assert (Hp : is_nan (SI_pct_change df r) = true).
  { unfold SI_pct_change. rewrite is_nan_pct, H. reflexivity. }
  assert (Hraw : is_nan (ShortConviction_raw df r) = true).
  { unfold ShortConviction_raw. apply is_nan_mul_l. now rewrite is_nan_opp. }
  unfold standardize, notna, ShortConviction_raw_clip.
  rewrite clip_is_nan, Hraw, andb_false_r. reflexivity.
Qed.

(** X6: no short interest, no signal.  When the script runs through, a
    master row with a partner in [monthly_crsp] and a valid [gvkey] for
    which [monthly_short] has no record of that [gvkey] and month comes out
    with a null signal: the missing record is not an error. *)
Theorem no_short_interest_null (signal_master : list SignalMaster.row)
    (monthly_crsp : list CRSP.row) (monthly_short : list ShortInterest.row)
    (out : list Predictor.row) (l : SignalMaster.row) :
  ShortConviction agg_mean agg_std signal_master monthly_crsp monthly_short
  = Ok out ->
  In l signal_master ->
  in_crsp monthly_crsp l = true ->
  SignalMaster.gvkey l <> None ->
  (forall s, In s monthly_short ->
             short_key s
             <> (SignalMaster.gvkey l, SignalMaster.time_avail_m l)) ->
  In (Predictor.mk (SignalMaster.permno l) (SignalMaster.time_avail_m l) nan)
     out.
Proof.
  intros H Hl Hc Hg Hnone. apply ShortConviction_Ok in H.
  destruct H as (df & frame & H1 & H2 & ->).
  apply in_or_app. left.
  unfold merge_crsp in H1. apply (merge_1to1_Ok _ key_ZZ_eqb_eq) in H1.
  destruct H1 as (_ & _ & ->).
  unfold merge_short in H2. apply (merge_1to1_Ok _ key_gvkey_eqb_eq) in H2.
  destruct H2 as (_ & Hs & ->).
  rewrite (left_join_find _ key_gvkey_eqb_eq _ _ _ _ _ Hs).
  unfold in_crsp in Hc. apply existsb_exists in Hc.
  destruct Hc as (c & Hin & Hk).
  set (j := with_shrout l c).
  assert (Hj : In j (filter gvkey_notna
                       (inner_join (pair_eqb Z.eqb) master_key crsp_key
                          with_shrout signal_master monthly_crsp))).
  { apply filter_In. split.
    - now apply inner_join_In.
    - unfold gvkey_notna, gvkey_isna, j. simpl.
      destruct (SignalMaster.gvkey l); [reflexivity | contradiction]. }
  assert (Hf : find (fun s => pair_eqb option_Z_eqb (joined_gvkey_key j)
                                       (short_key s)) monthly_short = None).
  { destruct (find _ monthly_short) as [s | ] eqn:E; [ | reflexivity].
    apply find_some in E. destruct E as [Hsin Hsk].
    apply key_gvkey_eqb_eq in Hsk. exfalso.
    apply (Hnone s Hsin). now rewrite <- Hsk. }
  set (frame := map _ _).
  assert (Hr : In (with_shortint j None) frame).
  { unfold frame. apply in_map_iff. exists j. split; [ | exact Hj].
    now rewrite Hf. }
  rewrite signal_rows. simpl. apply in_map_iff.
  exists (with_shortint j None). split.
  - rewrite null_ratio_null_signal; [reflexivity | ].
    unfold isna, SI_ratio. simpl. rewrite is_nan_div. reflexivity.
  - apply (Permutation_in _ (sort_values_perm frame)). exact Hr.
Qed.

End MergedRows.

Section MonthStatistics.

Local Open Scope float_scope.

(** X11: the statistics of lines 119-122.  Write [cohort m] for the non-null
    clipped raw factors of the rows of the frame whose month is [m].
    [monthly_stats] has one entry for each month that occurs in the frame
    and none besides, and the entry of month [m] holds pandas' mean and
    standard deviation of [cohort m]; the left merge with it returns the
    rows of the frame as they were, in order and as many, each with the two
    statistics of its own month.  The mean of an empty cohort and the
    standard deviation of a cohort of fewer than two values are null. *)
Theorem monthly_stats_cover (df : list Frame.row) :
  let cohort (m : Z) :=
    filter notna
      (map (ShortConviction_raw_clip df)
           (filter (fun r => (Frame.time_avail_m r =? m)%Z) df)) in
  NoDup (map fst (monthly_stats mean std df)) /\
  (forall m mu sd,
     In (m, (mu, sd)) (monthly_stats mean std df) <->
     In m (map Frame.time_avail_m df) /\
     mu = mean (cohort m) /\ sd = std (cohort m)) /\
  merge_stats mean std df
  = map (fun r => (r, (mean (cohort (Frame.time_avail_m r)),
                       std (cohort (Frame.time_avail_m r)))))
        df /\
  (forall m, cohort m = [] -> mean (cohort m) = nan) /\
  (forall m, (length (cohort m) < 2)%nat -> std (cohort m) = nan).
Proof.
  intros cohort.
  assert (Hk : map fst (monthly_stats mean std df)
               = nodup Z.eq_dec (map Frame.time_avail_m df)).
  { unfold monthly_stats. rewrite map_map. simpl. apply map_id. }
  split; [rewrite Hk; apply NoDup_nodup | ].
  split; [ | split; [ | split]].
  - intros m mu sd. unfold monthly_stats. rewrite in_map_iff. split.
    + intros (m' & E & Hin). injection E as -> <- <-.
      split; [ | split; reflexivity]. now apply nodup_In in Hin.
    + intros (Hin & -> & ->). exists m. split; [reflexivity | ].
      now apply nodup_In.
  - rewrite merge_stats_rows. reflexivity.
  - intros m ->. reflexivity.
  - intros m. apply std_small.
Qed.

(** X1: a month with fewer than two non-null clipped raw factors.  Its
    standard deviation is null ([nobs <= ddof] in pandas' kernel), so every
    record of that month comes out null, the one that has a raw factor
    included. *)
Theorem small_month_null (signal_master : list SignalMaster.row)
    (monthly_crsp : list CRSP.row) (monthly_short : list ShortInterest.row)
    (joined : list Joined.row) (frame : list Frame.row)
    (out : list Predictor.row) (m : Z) :
  merge_crsp signal_master monthly_crsp = Ok joined ->
  merge_short (filter gvkey_notna joined) monthly_short = Ok frame ->
  ShortConviction mean std signal_master monthly_crsp monthly_short = Ok out ->
  let df := sort_values frame in
  let cohort :=
    filter notna
      (map (ShortConviction_raw_clip df)
           (filter (fun r => (Frame.time_avail_m r =? m)%Z) df)) in
  (length cohort < 2)%nat ->
  std cohort = nan /\
  forall o, In o out -> Predictor.time_avail_m o = m ->
            Predictor.ShortConviction o = nan.
Proof.
  intros Hj Hf Hrun df cohort Hlen.
  pose proof (std_small cohort Hlen) as Hstd.
  split; [exact Hstd | ].
  apply ShortConviction_Ok in Hrun.
  destruct Hrun as (joined' & frame' & Hj' & Hf' & ->).
  rewrite Hj in Hj'. injection Hj' as <-.
  rewrite Hf in Hf'. injection Hf' as <-.
  intros o Ho Hm. apply in_app_or in Ho. destruct Ho as [Ho | Ho].
  - rewrite signal_rows in Ho. cbv zeta in Ho.
    apply in_map_iff in Ho. destruct Ho as (r & <- & Hr).
    cbn [Predictor.time_avail_m] in Hm. cbn [Predictor.ShortConviction].
    unfold cohort_std. rewrite Hm.
    change (group_values (sort_values frame) m) with cohort.
    rewrite Hstd. reflexivity.
  - apply in_map_iff in Ho. destruct Ho as (j & <- & _). reflexivity.
Qed.

End MonthStatistics.

Section KernelsExact.

Local Open Scope R_scope.

(** X12: pandas' kernels against the textbook statistics.  When no update
    of the accumulators and neither final result is rounded, the mean and
    the standard deviation that [group_mean] and [group_var] return for a
    group of more than one number are the exact mean and the exact sample
    standard deviation of these numbers: the compensated sum keeps the sum
    with compensation 0, and Welford's recurrence keeps the mean and the
    summed squared deviations from it. *)
Theorem kernels_exact (xs : list float) :
  (1 < length xs)%nat -> mean_exact xs -> std_exact xs ->
  represents (mean xs) (Exact.mean (map to_R xs)) /\
  represents (std xs) (Exact.std (map to_R xs)).
Proof.
  intros Hlen [Hms [Hmf Hmv]] [Hvs [Hsf Hsv]].
  assert (Hn : 1 < Exact.count (map to_R xs)).
  { unfold Exact.count. rewrite length_map. apply lt_INR in Hlen.
    simpl in Hlen. exact Hlen. }
  split; (split; [assumption | ]).
  - destruct (mean_steps_sum xs [] GroupMean.init eq_refl eq_refl eq_refl Hms)
      as [En Es].
    cbn [app] in En, Es. rewrite Hmv, En, Es.
    unfold Exact.mean. now rewrite count_IZR, length_map.
  - assert (H0 : to_R (GroupVar.mean GroupVar.init)
                 * Exact.count (map to_R []) = Exact.sum (map to_R [])).
    { unfold Exact.count. simpl. change (Exact.sum []) with 0. lra. }
    assert (H1 : to_R (GroupVar.out GroupVar.init)
                 * Exact.count (map to_R [])
                 = sumsq (map to_R []) * Exact.count (map to_R [])
                   - Exact.sum (map to_R []) * Exact.sum (map to_R [])).
    { unfold Exact.count, sumsq. simpl. change (Exact.sum []) with 0. lra. }
    destruct (var_steps_moments xs [] GroupVar.init eq_refl H0 H1
                (fun _ => conj eq_refl eq_refl) Hvs) as (En & Em & Eo).
    cbn [app] in En, Em, Eo.
    rewrite Hsv, En. unfold Exact.std.
    rewrite sum_deviations. f_equal.
    rewrite <- (length_map to_R), <- count_IZR.
    set (n := Exact.count (map to_R xs)) in *.
    set (S := Exact.sum (map to_R xs)) in *.
    set (Q := sumsq (map to_R xs)) in *.
    set (o := to_R (GroupVar.out (fold_left GroupVar.step xs GroupVar.init)))
      in *.
    assert (Eo' : o = Q - S * S / n) by (field_simplify_eq; lra).
    unfold Exact.mean. fold S n. rewrite Eo'. field. lra.
Qed.

End KernelsExact.

Section ConstantMonth.

Import F64.
Local Open Scope float_scope.

(** The non-null clipped raw factors are numbers between -3 and 3. *)
Lemma cohort_finite (df rows : list Frame.row) (y : float) :
  In y (filter notna (map (ShortConviction_raw_clip df) rows)) ->
  is_finite y = true.
Proof.
  intros H. apply filter_In in H. destruct H as [H Hy].
  apply in_map_iff in H. destruct H as (r & <- & _).
  unfold notna in Hy. apply negb_true_iff in Hy.
  unfold ShortConviction_raw_clip in *.
  assert (Hraw : isna (ShortConviction_raw df r) = false).
  { unfold isna. now rewrite clip_is_nan in Hy. }
  destruct (clip_bounds _ Hraw) as [Hlo Hhi].
  unfold is_finite. now rewrite Hy, (bounded_not_infinity _ Hlo Hhi).
Qed.

(** X13: a month of zero variance.  When the non-null clipped raw factors
    of a month are two or more copies of one number, Welford's recurrence
    keeps the summed squared deviations at 0, the standard deviation of the
    month is 0, which is not above zero, and every record of that month
    comes out null.  (The count of the month is an int64.) *)
Theorem constant_month_null (signal_master : list SignalMaster.row)
    (monthly_crsp : list CRSP.row) (monthly_short : list ShortInterest.row)
    (joined : list Joined.row) (frame : list Frame.row)
    (out : list Predictor.row) (m : Z) (x : float) :
  merge_crsp signal_master monthly_crsp = Ok joined ->
  merge_short (filter gvkey_notna joined) monthly_short = Ok frame ->
  ShortConviction mean std signal_master monthly_crsp monthly_short = Ok out ->
  let df := sort_values frame in
  let cohort :=
    filter notna
      (map (ShortConviction_raw_clip df)
           (filter (fun r => (Frame.time_avail_m r =? m)%Z) df)) in
  (2 <= length cohort)%nat ->
  (Z.of_nat (length cohort) < 2 ^ 63)%Z ->
  Forall (eq x) cohort ->
  is_zero (std cohort) = true /\
  forall o, In o out -> Predictor.time_avail_m o = m ->
            Predictor.ShortConviction o = nan.
Proof.
  intros Hj Hf Hrun df cohort Hlen Hbound Hall.
  assert (Hx : is_finite x = true).
  { destruct cohort as [ | y ys] eqn:E; [simpl in Hlen; lia | ].
    apply Forall_cons_iff in Hall. destruct Hall as [-> _].
    apply (cohort_finite df (filter (fun r => (Frame.time_avail_m r =? m)%Z) df)).
    fold cohort. rewrite E. now left. }
  pose proof (std_constant x cohort Hx Hall Hlen Hbound) as Hstd.
  split; [exact Hstd | ].
  apply ShortConviction_Ok in Hrun.
  destruct Hrun as (joined' & frame' & Hj' & Hf' & ->).
  rewrite Hj in Hj'. injection Hj' as <-.
  rewrite Hf in Hf'. injection Hf' as <-.
  intros o Ho Hm. apply in_app_or in Ho. destruct Ho as [Ho | Ho].
  - rewrite signal_rows in Ho. cbv zeta in Ho.
    apply in_map_iff in Ho. destruct Ho as (r & <- & Hr).
    cbn [Predictor.time_avail_m] in Hm. cbn [Predictor.ShortConviction].
    unfold cohort_std. rewrite Hm.
    change (group_values (sort_values frame) m) with cohort.
    unfold standardize. now rewrite (is_zero_not_pos _ Hstd).
  - apply in_map_iff in Ho. destruct Ho as (j & <- & _). reflexivity.
Qed.

End ConstantMonth.

(** ** The order of the rows *)

Lemma key_leb_lex_le (a b : Frame.row) :
  key_leb a b = true <-> lex_le (frame_key a) (frame_key b).
Proof.
  unfold key_leb, lex_le, frame_key. simpl.
  rewrite orb_true_iff, andb_true_iff, Z.ltb_lt, Z.eqb_eq, Z.leb_le.
  reflexivity.
Qed.

Lemma key_leb_false (a b : Frame.row) :
  key_leb a b = false -> lex_le (frame_key b) (frame_key a).
Proof.
  unfold key_leb, lex_le, frame_key. simpl.
  rewrite orb_false_iff, andb_false_iff, Z.ltb_ge, Z.eqb_neq, Z.leb_gt. lia.
Qed.

Lemma lex_le_trans (a b c : Z * Z) : lex_le a b -> lex_le b c -> lex_le a c.
Proof. unfold lex_le. lia. Qed.

Lemma insert_row_sorted (r : Frame.row) (df : list Frame.row) :
  StronglySorted (fun a b => lex_le (frame_key a) (frame_key b)) df ->
  StronglySorted (fun a b => lex_le (frame_key a) (frame_key b))
                 (insert_row r df).
Proof.
  intros Hs. induction Hs as [ | x df Hs IH Hx]; simpl.
  - constructor; constructor.
  - destruct (key_leb r x) eqn:E.
    + apply key_leb_lex_le in E. constructor.
      * constructor; assumption.
      * constructor; [exact E | ].
        rewrite Forall_forall in *. intros y Hy.
        apply (lex_le_trans _ (frame_key x)); auto.
    + apply key_leb_false in E. constructor; [exact IH | ].
      rewrite Forall_forall in *. intros y Hy.
      apply (Permutation_in _ (Permutation_sym (insert_row_perm r df))) in Hy.
      destruct Hy as [<- | Hy]; auto.
Qed.

Lemma insert_row_head (r : Frame.row) (df : list Frame.row) :
  Forall (fun x => lex_le (frame_key r) (frame_key x)) df ->
  insert_row r df = r :: df.
Proof.
  intros H. destruct df as [ | x df]; [reflexivity | ]. simpl.
  apply Forall_inv in H. apply key_leb_lex_le in H. now rewrite H.
Qed.

(** The sort leaves the frame in the order of its keys, and leaves a frame
    in that order as it is. *)
Lemma sort_values_ordered (df : list Frame.row) :
  StronglySorted (fun a b => lex_le (frame_key a) (frame_key b))
                 (sort_values df).
Proof.
  induction df as [ | r df IH]; simpl; [constructor | ].
  now apply insert_row_sorted.
Qed.

Lemma sort_values_fixed (df : list Frame.row) :
  StronglySorted (fun a b => lex_le (frame_key a) (frame_key b)) df ->
  sort_values df = df.
Proof.
  intros Hs. induction Hs as [ | x df Hs IH Hx]; [reflexivity | ].
  change (sort_values (x :: df)) with (insert_row x (sort_values df)).
  rewrite IH. now apply insert_row_head.
Qed.

(** X7: [sort_values] of line 92.  The result holds the rows of the frame,
    each as often as before, in the order of [permno] and then
    [time_avail_m]; a frame that is in that order already is returned as it
    is, so sorting twice is sorting once. *)
Theorem sort_values_sorted (df : list Frame.row) :
  Permutation df (sort_values df) /\
  StronglySorted (fun a b => lex_le (frame_key a) (frame_key b))
                 (sort_values df) /\
  (StronglySorted (fun a b => lex_le (frame_key a) (frame_key b)) df ->
   sort_values df = df) /\
  sort_values (sort_values df) = sort_values df.
Proof.
  split; [apply sort_values_perm | ].
  split; [apply sort_values_ordered | ].
  split; [apply sort_values_fixed | ].
  apply sort_values_fixed, sort_values_ordered.
Qed.

Lemma sorted_strict (ks : list (Z * Z)) :
  StronglySorted lex_le ks -> NoDup ks -> StronglySorted lex_lt ks.
Proof.
  intros Hs. induction Hs as [ | k ks Hs IH Hk]; intros Hnd.
  - constructor.
  - apply NoDup_cons_iff in Hnd. destruct Hnd as [Hnot Hnd].
    constructor; [now apply IH | ].
    rewrite Forall_forall in *. intros y Hy.
    assert (Hne : k <> y) by (intros ->; contradiction).
    specialize (Hk y Hy). unfold lex_le in Hk. unfold lex_lt.
    destruct k as [k1 k2], y as [y1 y2]. simpl in *.
    destruct (Z.eq_dec k2 y2) as [-> | Hn]; [ | lia].
    destruct Hk as [Hk | [-> _]]; [lia | congruence].
Qed.

Lemma StronglySorted_map {A B : Type} (f : A -> B) (R : B -> B -> Prop)
    (l : list A) :
  StronglySorted (fun a b => R (f a) (f b)) l -> StronglySorted R (map f l).
Proof.
  intros H. induction H as [ | x l H IH Hx]; simpl; constructor.
  - exact IH.
  - rewrite Forall_forall in *. intros y Hy. apply in_map_iff in Hy.
    destruct Hy as [a [<- Ha]]. now apply Hx.
Qed.

Lemma filter_andb {A : Type} (f g : A -> bool) (l : list A) :
  filter f (filter g l) = filter (fun x => f x && g x) l.
Proof.
  induction l as [ | x l IH]; simpl; [reflexivity | ].
  destruct (g x); simpl; rewrite ?andb_false_r, ?andb_true_r;
    [destruct (f x) | ]; now rewrite IH.
Qed.

(** The keys of the joined rows that pass a test on their master columns. *)
Lemma joined_keys_filter (p : SignalMaster.row -> bool) (q : Joined.row -> bool)
    (signal_master : list SignalMaster.row) (monthly_crsp : list CRSP.row) :
  (forall l c, q (with_shrout l c) = p l) ->
  NoDup (map crsp_key monthly_crsp) ->
  map joined_key
    (filter q (inner_join (pair_eqb Z.eqb) master_key crsp_key with_shrout
                 signal_master monthly_crsp))
  = map master_key
      (filter (fun l => in_crsp monthly_crsp l && p l) signal_master).
Proof.
  intros Hq Hc.
  rewrite (filter_inner_join _ _ _ with_shrout p q _ _ Hq).
  rewrite <- filter_andb.
  apply (inner_join_keys _ key_ZZ_eqb_eq); [reflexivity | exact Hc].
Qed.

Section OutputOrder.

Variables agg_mean agg_std : list float -> float.

(** X8: the order of the output.  When the script runs through, its output
    is the records with a valid [gvkey], in strictly increasing order of
    [permno] and then [time_avail_m], followed by the records without
    [gvkey], in the order in which the master table lists them. *)
Theorem output_order (signal_master : list SignalMaster.row)
    (monthly_crsp : list CRSP.row) (monthly_short : list ShortInterest.row)
    (out : list Predictor.row) :
  ShortConviction agg_mean agg_std signal_master monthly_crsp monthly_short
  = Ok out ->
  exists scored missing,
    out = scored ++ missing /\
    StronglySorted lex_lt (map predictor_key scored) /\
    Permutation (map predictor_key scored)
      (map master_key
         (filter (fun l => in_crsp monthly_crsp l && master_gvkey_notna l)
                 signal_master)) /\
    map predictor_key missing
    = map master_key
        (filter (fun l => in_crsp monthly_crsp l
                          && negb (master_gvkey_notna l)) signal_master) /\
    Forall (fun o => isna (Predictor.ShortConviction o) = true) missing.
Proof.
  intros H. pose proof (output_keys _ _ _ _ _ _ H) as [Hnd Hperm].
  apply ShortConviction_Ok in H.
  destruct H as (df & frame & H1 & H2 & ->).
  exists (signal agg_mean agg_std frame),
         (map missing_signal (filter gvkey_isna df)).
  assert (Hall : NoDup (map predictor_key
                          (signal agg_mean agg_std frame
                           ++ map missing_signal (filter gvkey_isna df)))).
  { apply (Permutation_NoDup (Permutation_sym Hperm)).
    now apply NoDup_map_filter. }
  rewrite map_app in Hall. apply NoDup_app_remove_r in Hall.
  unfold merge_crsp in H1. apply (merge_1to1_Ok _ key_ZZ_eqb_eq) in H1.
  destruct H1 as (_ & Hc & ->).
  apply merge_short_Ok in H2. destruct H2 as [Hframe _].
  split; [reflexivity | ]. split; [ | split; [ | split]].
  - apply sorted_strict; [ | exact Hall].
    rewrite signal_keys. apply StronglySorted_map.
    apply sort_values_ordered.
  - rewrite signal_keys.
    apply perm_trans with (map frame_key frame).
    + apply Permutation_map, Permutation_sym, sort_values_perm.
    + rewrite Hframe, (joined_keys_filter master_gvkey_notna);
        [apply Permutation_refl | | exact Hc].
      intros l c. unfold gvkey_notna, gvkey_isna, master_gvkey_notna.
      simpl. now destruct (SignalMaster.gvkey l).
  - rewrite map_map.
    change (fun x => predictor_key (missing_signal x)) with joined_key.
    apply joined_keys_filter; [ | exact Hc].
    intros l c. unfold gvkey_isna, master_gvkey_notna.
    simpl. now destruct (SignalMaster.gvkey l).
  - apply Forall_forall. intros o Ho. apply in_map_iff in Ho.
    destruct Ho as [j [<- _]]. reflexivity.
Qed.

End OutputOrder.

Section ZeroLag.

Import F64.
Local Open Scope float_scope.

(** A positive number less zero, over zero, is plus infinity. *)
Lemma pct_change_zero_lag (a : float) :
  (0 <? a) = true -> (a - 0) / 0 = infinity.
Proof.
  intros H. apply Prim2SF_inj. rewrite div_spec, sub_spec.
  rewrite ltb_spec in H. revert H.
  change (Prim2SF 0) with (S754_zero false).
  change (Prim2SF infinity) with (S754_infinity false).
  unfold SFltb.
  destruct (Prim2SF a) as [[ | ] | [ | ] | | [ | ] m e]; cbn [SFcompare];
    intros; first [discriminate | reflexivity].
Qed.

Lemma neg_infinity_mul (c : float) :
  ((0 <? c) = true -> neg_infinity * c = neg_infinity) /\
  ((c <? 0) = true -> neg_infinity * c = infinity) /\
  (is_zero c = true -> is_nan (neg_infinity * c) = true).
Proof.
  rewrite is_zero_class, is_nan_class, !ltb_spec, mul_spec.
  change (Prim2SF 0) with (S754_zero false).
  change (Prim2SF neg_infinity) with (S754_infinity true).
  unfold SFltb.
  repeat split; intros H; try apply Prim2SF_inj; try rewrite mul_spec;
    change (Prim2SF neg_infinity) with (S754_infinity true);
    change (Prim2SF infinity) with (S754_infinity false);
    revert H;
    destruct (Prim2SF c) as [[ | ] | [ | ] | | [ | ] m e]; cbn [SFcompare];
    intros; first [discriminate | reflexivity].
Qed.

(** X9: a short interest that starts from nothing.  When the ratio two months
    before is zero (the number 0.0, as no short interest over a positive
    share count gives) and the ratio of the month is positive, the
    percentage change is plus infinity, and the clipped raw factor is
    decided by the sign of the cumulative return alone: -3 when it is
    positive, 3 when it is negative, null when it is zero. *)
Theorem zero_lag_extreme_score (df : list Frame.row) (r : Frame.row) :
  SI_ratio_lag2 df r = 0 -> (0 <? SI_ratio r) = true ->
  SI_pct_change df r = infinity /\
  ((0 <? cumret_2m df r) = true -> ShortConviction_raw_clip df r = -3) /\
  ((cumret_2m df r <? 0) = true -> ShortConviction_raw_clip df r = 3) /\
  (is_zero (cumret_2m df r) = true ->
   isna (ShortConviction_raw_clip df r) = true).
Proof.
  intros Hlag Hratio.
  assert (Hp : SI_pct_change df r = infinity).
  { unfold SI_pct_change. rewrite Hlag. now apply pct_change_zero_lag. }
  assert (Hraw : ShortConviction_raw df r = neg_infinity * cumret_2m df r).
  { unfold ShortConviction_raw. rewrite Hp. reflexivity. }
  destruct (neg_infinity_mul (cumret_2m df r)) as (Hpos & Hneg & Hzero).
  unfold ShortConviction_raw_clip. rewrite Hraw.
  split; [exact Hp | split; [ | split]].
  - intros H. rewrite (Hpos H). reflexivity.
  - intros H. rewrite (Hneg H). reflexivity.
  - intros H. unfold isna. rewrite clip_is_nan. exact (Hzero H).
Qed.

End ZeroLag.

Section NullRows.

Variables agg_mean agg_std : list float -> float.

Lemma filter_missing_signal (js : list Joined.row) :
  filter (fun o => notna (Predictor.ShortConviction o))
         (map missing_signal js) = [].
Proof. induction js as [ | j js IH]; simpl; [reflexivity | exact IH]. Qed.

(** X10: the records without [gvkey] have no part in the others.  Two master
    tables with the same rows with a valid [gvkey], in the same order, run
    against the same [monthly_crsp] and [monthly_short], give the same
    non-null records: which rows without [gvkey] a table holds, and what
    they hold, changes no number the script computes. *)
Theorem missing_gvkey_rows_inert (master1 master2 : list SignalMaster.row)
    (monthly_crsp : list CRSP.row) (monthly_short : list ShortInterest.row)
    (out1 out2 : list Predictor.row) :
  ShortConviction agg_mean agg_std master1 monthly_crsp monthly_short
  = Ok out1 ->
  ShortConviction agg_mean agg_std master2 monthly_crsp monthly_short
  = Ok out2 ->
  filter master_gvkey_notna master1 = filter master_gvkey_notna master2 ->
  filter (fun o => notna (Predictor.ShortConviction o)) out1
  = filter (fun o => notna (Predictor.ShortConviction o)) out2.
Proof.
  intros H1 H2 Hm.
  apply ShortConviction_Ok in H1. destruct H1 as (df1 & f1 & Hd1 & Hf1 & ->).
  apply ShortConviction_Ok in H2. destruct H2 as (df2 & f2 & Hd2 & Hf2 & ->).
  unfold merge_crsp in Hd1, Hd2.
  apply (merge_1to1_Ok _ key_ZZ_eqb_eq) in Hd1. destruct Hd1 as (_ & _ & ->).
  apply (merge_1to1_Ok _ key_ZZ_eqb_eq) in Hd2. destruct Hd2 as (_ & _ & ->).
  assert (Hq : forall l c, gvkey_notna (with_shrout l c) = master_gvkey_notna l).
  { intros l c. unfold gvkey_notna, gvkey_isna, master_gvkey_notna. simpl.
    now destruct (SignalMaster.gvkey l). }
  rewrite (filter_inner_join _ _ _ with_shrout master_gvkey_notna gvkey_notna
             master1 _ Hq) in Hf1.
  rewrite (filter_inner_join _ _ _ with_shrout master_gvkey_notna gvkey_notna
             master2 _ Hq) in Hf2.
  rewrite Hm in Hf1. rewrite Hf1 in Hf2. injection Hf2 as <-.
  now rewrite !filter_app, !filter_missing_signal.
Qed.

End NullRows.

(** ** The further properties on the small run *)

Lemma shared_gvkey_raises_witness :
  ShortConviction mean std Sample.signal_master_shared_gvkey
    Sample.monthly_crsp_shared_gvkey Sample.monthly_short = MergeError.
Proof.
  apply (shared_gvkey_raises mean std Sample.signal_master_shared_gvkey
           Sample.monthly_crsp_shared_gvkey Sample.monthly_short
           (SignalMaster.mk 1 (Some 10%Z) 3 0.125%float)
           (SignalMaster.mk 6 (Some 10%Z) 3 0.25%float) 10%Z).
  - left. reflexivity.
  - right. left. reflexivity.
  - discriminate.
  - reflexivity.
  - reflexivity.
  - reflexivity.
  - reflexivity.
  - reflexivity.
Defined.

Lemma sample_joined :
  merge_crsp Sample.signal_master Sample.monthly_crsp = Ok Sample2.joined.
Proof. vm_compute. reflexivity. Defined.

Lemma sample_frame :
  merge_short (filter gvkey_notna Sample2.joined) Sample.monthly_short
  = Ok Sample2.frame.
Proof. vm_compute. reflexivity. Defined.

Lemma merge_crsp_rows_witness :
  merge_crsp Sample.signal_master Sample.monthly_crsp = Ok Sample2.joined /\
  Sample2.joined
  = flat_map
      (fun l =>
         match
           find (fun c => pair_eqb Z.eqb (master_key l) (crsp_key c))
                Sample.monthly_crsp
         with
         | Some c =>
           [Joined.mk (SignalMaster.permno l) (SignalMaster.gvkey l)
                      (SignalMaster.time_avail_m l) (SignalMaster.ret l)
                      (CRSP.shrout c)]
         | None => []
         end) Sample.signal_master /\
  (length Sample2.joined <= length Sample.signal_master)%nat.
Proof.
  split; [exact sample_joined | ].
  exact (merge_crsp_rows Sample.signal_master Sample.monthly_crsp
           Sample2.joined sample_joined).
Defined.

Lemma merge_short_rows_witness :
  merge_short (filter gvkey_notna Sample2.joined) Sample.monthly_short
  = Ok Sample2.frame /\
  Sample2.frame
  = map
      (fun j =>
         Frame.mk (Joined.permno j) (Joined.gvkey j)
           (Joined.time_avail_m j) (Joined.ret j) (Joined.shrout j)
           match
             find (fun s => pair_eqb option_Z_eqb (joined_gvkey_key j)
                                     (short_key s)) Sample.monthly_short
           with
           | Some s => ShortInterest.shortint s
           | None => nan
           end) (filter gvkey_notna Sample2.joined) /\
  length Sample2.frame = length (filter gvkey_notna Sample2.joined).
Proof.
  split; [exact sample_frame | ].
  exact (merge_short_rows (filter gvkey_notna Sample2.joined)
           Sample.monthly_short Sample2.frame sample_frame).
Defined.

(** Security 3 in month 3: [monthly_short] has no record of company 30 in
    that month. *)
Lemma no_short_interest_null_witness :
  In (Predictor.mk 3 3 nan) Sample.output.
Proof.
  apply (no_short_interest_null mean std Sample.signal_master
           Sample.monthly_crsp Sample.monthly_short Sample.output
           (SignalMaster.mk 3 (Some 30%Z) 3 0.125%float) sample_run).
  - do 8 right. left. reflexivity.
  - reflexivity.
  - discriminate.
  - intros s Hs. simpl in Hs.
    destruct Hs as [<- | [<- | [<- | [<- | [<- | []]]]]]; discriminate.
Defined.

Lemma output_order_witness :
  ShortConviction mean std Sample.signal_master Sample.monthly_crsp
    Sample.monthly_short = Ok Sample.output /\
  exists scored missing,
    Sample.output = scored ++ missing /\
    StronglySorted lex_lt (map predictor_key scored) /\
    Permutation (map predictor_key scored)
      (map master_key
         (filter (fun l => in_crsp Sample.monthly_crsp l
                           && master_gvkey_notna l) Sample.signal_master)) /\
    map predictor_key missing
    = map master_key
        (filter (fun l => in_crsp Sample.monthly_crsp l
                          && negb (master_gvkey_notna l))
                Sample.signal_master) /\
    Forall (fun o => isna (Predictor.ShortConviction o) = true) missing.
Proof.
  split; [exact sample_run | ].
  exact (output_order mean std Sample.signal_master Sample.monthly_crsp
           Sample.monthly_short Sample.output sample_run).
Defined.

(** Security 1 in month 3: no short interest two months before, a ratio of
    1/8 now, a cumulative return of 7/8. *)
Lemma zero_lag_extreme_score_witness :
  SI_ratio_lag2 Sample.df Sample.row_1_3 = 0%float /\
  (0 <? SI_ratio Sample.row_1_3)%float = true /\
  (0 <? cumret_2m Sample.df Sample.row_1_3)%float = true /\
  SI_pct_change Sample.df Sample.row_1_3 = infinity /\
  ShortConviction_raw_clip Sample.df Sample.row_1_3 = (-3)%float.
Proof.
  assert (H1 : SI_ratio_lag2 Sample.df Sample.row_1_3 = 0%float)
    by (vm_compute; reflexivity).
  assert (H2 : (0 <? SI_ratio Sample.row_1_3)%float = true)
    by (vm_compute; reflexivity).
  assert (H3 : (0 <? cumret_2m Sample.df Sample.row_1_3)%float = true)
    by (vm_compute; reflexivity).
  split; [exact H1 | ]. split; [exact H2 | ]. split; [exact H3 | ].
  split.
  - exact (proj1 (zero_lag_extreme_score Sample.df Sample.row_1_3 H1 H2)).
  - exact (proj1 (proj2 (zero_lag_extreme_score Sample.df Sample.row_1_3
                           H1 H2)) H3).
Defined.

Lemma sample_run_valid :
  ShortConviction mean std Sample2.signal_master_valid Sample.monthly_crsp
    Sample.monthly_short = Ok Sample2.output_valid.
Proof. vm_compute. reflexivity. Defined.

Lemma missing_gvkey_rows_inert_witness :
  filter master_gvkey_notna Sample.signal_master
  = filter master_gvkey_notna Sample2.signal_master_valid /\
  filter (fun o => notna (Predictor.ShortConviction o)) Sample.output
  = filter (fun o => notna (Predictor.ShortConviction o))
           Sample2.output_valid.
Proof.
  assert (H : filter master_gvkey_notna Sample.signal_master
              = filter master_gvkey_notna Sample2.signal_master_valid)
    by reflexivity.
  split; [exact H | ].
  exact (missing_gvkey_rows_inert mean std Sample.signal_master
           Sample2.signal_master_valid Sample.monthly_crsp
           Sample.monthly_short Sample.output Sample2.output_valid
           sample_run sample_run_valid H).
Defined.

(** Month 5 of the six-month run has one raw factor, 0.5, and no score. *)
Lemma small_month_null_witness :
  merge_crsp Panel.signal_master Panel.monthly_crsp = Ok Panel.joined /\
  merge_short (filter gvkey_notna Panel.joined) Panel.monthly_short
  = Ok Panel.frame /\
  ShortConviction mean std Panel.signal_master Panel.monthly_crsp
    Panel.monthly_short = Ok Panel.output /\
  Panel.cohort 5 = [0.5%float] /\
  filter (fun o => (Predictor.time_avail_m o =? 5)%Z) Panel.output
  = [Predictor.mk 1 5 nan; Predictor.mk 2 5 nan] /\
  std (Panel.cohort 5) = nan /\
  forall o, In o Panel.output -> Predictor.time_avail_m o = 5%Z ->
            Predictor.ShortConviction o = nan.
Proof.
  assert (Hj : merge_crsp Panel.signal_master Panel.monthly_crsp
               = Ok Panel.joined) by (vm_compute; reflexivity).
  assert (Hf : merge_short (filter gvkey_notna Panel.joined) Panel.monthly_short
               = Ok Panel.frame) by (vm_compute; reflexivity).
  assert (Hc : Panel.cohort 5 = [0.5%float]) by (vm_compute; reflexivity).
  assert (Hlen : (length (Panel.cohort 5) < 2)%nat)
    by (rewrite Hc; simpl; lia).
  split; [exact Hj | ]. split; [exact Hf | ]. split; [exact panel_run | ].
  split; [exact Hc | ]. split; [vm_compute; reflexivity | ].
  exact (small_month_null Panel.signal_master Panel.monthly_crsp
           Panel.monthly_short Panel.joined Panel.frame Panel.output 5
           Hj Hf panel_run Hlen).
Defined.

(** The raw factors of month 3 of the six-month run: every update is
    exact. *)
Lemma kernels_exact_witness :
  (1 < length [(-1)%float; 1%float; 3%float])%nat /\
  mean_exact [(-1)%float; 1%float; 3%float] /\
  std_exact [(-1)%float; 1%float; 3%float] /\
  represents (mean [(-1)%float; 1%float; 3%float])
    (Exact.mean (map to_R [(-1)%float; 1%float; 3%float])) /\
  represents (std [(-1)%float; 1%float; 3%float])
    (Exact.std (map to_R [(-1)%float; 1%float; 3%float])).
Proof.
  assert (Hlen : (1 < length [(-1)%float; 1%float; 3%float])%nat)
    by (simpl; lia).
  assert (Hm : mean_exact [(-1)%float; 1%float; 3%float]).
  { unfold mean_exact. cbn [mean_steps_exact fold_left].
    repeat split; try (vm_compute; reflexivity); to_R_eval.
    all: try lra.
    all: let z := eval vm_compute in
           (GroupMean.nobs
              (GroupMean.step
                 (GroupMean.step (GroupMean.step GroupMean.init (-1)) 1) 3)) in
         change (GroupMean.nobs
              (GroupMean.step
                 (GroupMean.step (GroupMean.step GroupMean.init (-1)) 1) 3))
           with z; lra. }
  assert (Hs : std_exact [(-1)%float; 1%float; 3%float]).
  { unfold std_exact. cbn [var_steps_exact fold_left].
    repeat split; try (vm_compute; reflexivity); to_R_eval.
    all: repeat match goal with
         | |- context [IZR (GroupVar.nobs ?st)] =>
           let z := eval vm_compute in (GroupVar.nobs st) in
           change (GroupVar.nobs st) with z
         end.
    all: try lra.
    symmetry. apply sqrt_lem_1; lra. }
  split; [exact Hlen | ]. split; [exact Hm | ]. split; [exact Hs | ].
  exact (kernels_exact [(-1)%float; 1%float; 3%float] Hlen Hm Hs).
Defined.

(** Month 6 of the six-month run has the raw factor -1 twice, and no
    score. *)
Lemma constant_month_null_witness :
  merge_crsp Panel.signal_master Panel.monthly_crsp = Ok Panel.joined /\
  merge_short (filter gvkey_notna Panel.joined) Panel.monthly_short
  = Ok Panel.frame /\
  ShortConviction mean std Panel.signal_master Panel.monthly_crsp
    Panel.monthly_short = Ok Panel.output /\
  Panel.cohort 6 = [(-1)%float; (-1)%float] /\
  filter (fun o => (Predictor.time_avail_m o =? 6)%Z) Panel.output
  = [Predictor.mk 1 6 nan; Predictor.mk 2 6 nan] /\
  is_zero (std (Panel.cohort 6)) = true /\
  forall o, In o Panel.output -> Predictor.time_avail_m o = 6%Z ->
            Predictor.ShortConviction o = nan.
Proof.
  assert (Hj : merge_crsp Panel.signal_master Panel.monthly_crsp
               = Ok Panel.joined) by (vm_compute; reflexivity).
  assert (Hf : merge_short (filter gvkey_notna Panel.joined) Panel.monthly_short
               = Ok Panel.frame) by (vm_compute; reflexivity).
  assert (Hc : Panel.cohort 6 = [(-1)%float; (-1)%float])
    by (vm_compute; reflexivity).
  assert (Hlen : (2 <= length (Panel.cohort 6))%nat)
    by (rewrite Hc; simpl; lia).
  assert (Hbound : (Z.of_nat (length (Panel.cohort 6)) < 2 ^ 63)%Z)
    by (rewrite Hc; simpl; lia).
  assert (Hall : Forall (eq (-1)%float) (Panel.cohort 6))
    by (rewrite Hc; repeat constructor).
  split; [exact Hj | ]. split; [exact Hf | ]. split; [exact panel_run | ].
  split; [exact Hc | ]. split; [vm_compute; reflexivity | ].
  exact (constant_month_null Panel.signal_master Panel.monthly_crsp
           Panel.monthly_short Panel.joined Panel.frame Panel.output 6
           (-1)%float Hj Hf panel_run Hlen Hbound Hall).
Defined.
